(** * Keyword explorer: filter, sort and aggregate core of [src/App.tsx]

    A shallow embedding of the computations that [App] performs on every
    render: [getWordCount], the predicate of [filteredKeywords], the
    comparator of [sortedKeywords], [totalVolume] and [averageKD], together
    with the JavaScript primitives they call.

    Modelling conventions.
    - A JavaScript string is a sequence of code units; the model covers the
      code units 0..255 (Latin-1), held in Rocq's [string].  On that range
      [toLowerCase] is a character-wise map and the white space recognised
      by [trim], [\s], [parseInt] and [parseFloat] is 9..13, 32 and 160.
    - A JavaScript number is modelled by the value it denotes: [number] is
      NaN, the two infinities or a rational.  Every finite double is a
      rational and comparisons of doubles are exact.  [parseFloat] and the
      bounds read with [parseInt] are rounded to the nearest double
      ([roundToDouble]); the rounding of sums and quotients of very large
      values is not modelled.
    - [parseInt] reads an integer or NaN; it is given the type [option Z],
      [None] standing for NaN, and [ofParsedInt] turns its result into the
      number that JavaScript returns.  The volume of a record is kept as
      the integer read, which is that number up to 2^53.
    - The numeric fields of a record are produced by [handleFileUpload] as
      [parseInt(..) || 0] and [parseFloat(..) || 0], so they are never NaN:
      in [Keyword], [kd] and [trafficPotential] are integers and [cpc] is a
      rational.  [parseRow] is the ingestion itself and keeps the three
      fields as numbers, an infinity included. *)

From Stdlib Require Import Bool Arith ZArith QArith Qround Qreduction List String Ascii Lia Lqa.
From Stdlib Require Import Permutation Sorted.
Import ListNotations.

Local Open Scope string_scope.
Local Open Scope Z_scope.

(** ** JavaScript strings *)

Module JsString.

(** Code units that [trim], the regular expression class [\s] and the
    number parsers treat as white space (restricted to 0..255). *)
Definition isWhiteSpace (c : ascii) : bool :=
  let n := nat_of_ascii c in
  ((9 <=? n) && (n <=? 13) || (n =? 32) || (n =? 160))%nat.

(** [String.prototype.trimStart]. *)
Fixpoint trimStart (s : string) : string :=
  match s with
  | EmptyString => EmptyString
  | String c s' => if isWhiteSpace c then trimStart s' else s
  end.

(** [String.prototype.trimEnd]. *)
Fixpoint trimEnd (s : string) : string :=
  match s with
  | EmptyString => EmptyString
  | String c s' =>
      match trimEnd s' with
      | EmptyString => if isWhiteSpace c then EmptyString else String c EmptyString
      | r => String c r
      end
  end.

(** [String.prototype.trim]. *)
Definition trim (s : string) : string := trimEnd (trimStart s).

(** Lower-case mapping of one code unit: A..Z and the Latin-1 capitals
    0xC0..0xDE (0xD7, the multiplication sign, excepted) move up by 32. *)
Definition lowerChar (c : ascii) : ascii :=
  let n := nat_of_ascii c in
  if ((65 <=? n) && (n <=? 90)
      || (192 <=? n) && (n <=? 222) && negb (n =? 215))%nat
  then ascii_of_nat (n + 32) else c.

(** [String.prototype.toLowerCase]. *)
Fixpoint toLowerCase (s : string) : string :=
  match s with
  | EmptyString => EmptyString
  | String c s' => String (lowerChar c) (toLowerCase s')
  end.

(** [t] occurs at the very start of [s]. *)
Fixpoint startsWith (s t : string) {struct t} : bool :=
  match t, s with
  | EmptyString, _ => true
  | String _ _, EmptyString => false
  | String b t', String a s' => Ascii.eqb a b && startsWith s' t'
  end.

(** [String.prototype.includes]: [t] occurs in [s] at some position. *)
Fixpoint includes (s t : string) : bool :=
  startsWith s t ||
  match s with
  | EmptyString => false
  | String _ s' => includes s' t
  end.

(** [s.replace(/,/g, '')]: every comma is removed. *)
Fixpoint removeCommas (s : string) : string :=
  match s with
  | EmptyString => EmptyString
  | String c s' =>
      if Ascii.eqb c "," then removeCommas s' else String c (removeCommas s')
  end.

(** [s.split(/\s+/)], scanning from the left.  [cur] is the piece being
    collected and [inRun] tells that the previous code unit belonged to a
    separator.  A separator is a maximal run of white space; the pieces
    before the first and after the last separator are kept even when they
    are empty, and a string without separator is returned as one piece. *)
Fixpoint splitScan (inRun : bool) (cur : string) (s : string) : list string :=
  match s with
  | EmptyString => [cur]
  | String c s' =>
      if isWhiteSpace c
      then if inRun then splitScan true cur s'
           else cur :: splitScan true EmptyString s'
      else splitScan false (cur ++ String c EmptyString) s'
  end.

Definition splitWhiteSpace (s : string) : list string :=
  splitScan false EmptyString s.

(** A string is truthy when it is not empty. *)
Definition truthy (s : string) : bool :=
  match s with
  | EmptyString => false
  | String _ _ => true
  end.

End JsString.

(** ** JavaScript numbers *)

Module JsNumber.

Inductive number : Type :=
| NaN
| NegInfinity
| Finite (q : Q)
| Infinity.

Definition ofZ (z : Z) : number := Finite (inject_Z z).

(** The integer [e] with [2 ^ e <= n / d < 2 ^ (e + 1)]. *)
Definition floorLog2 (n d : positive) : Z :=
  let e0 := Z.log2 (Zpos n) - Z.log2 (Zpos d) in
  if (if 0 <=? e0 then Zpos d * 2 ^ e0 <=? Zpos n
      else Zpos d <=? Zpos n * 2 ^ (- e0))
  then e0 else e0 - 1.

(** [num / den] rounded to the nearest integer, a tie going to the even
    one; [den] is positive. *)
Definition roundHalfEven (num den : Z) : Z :=
  let q := num / den in
  match 2 * (num mod den) ?= den with
  | Lt => q
  | Gt => q + 1
  | Eq => if Z.even q then q else q + 1
  end.

(** The Number value of a rational: the nearest double, a tie going to
    the even significand.  The significand [m] has at most 53 bits, the
    exponent [p] of its last bit is at least -1074, and a result of
    [2 ^ 1024] or more is an infinity.  The result is in lowest terms. *)
Definition roundToDouble (x : Q) : number :=
  match Qnum x with
  | 0 => Finite 0
  | Zpos n | Zneg n =>
      let e := floorLog2 n (Qden x) in
      let p := Z.max (e - 52) (-1074) in
      let m := if 0 <=? p then roundHalfEven (Zpos n) (Zpos (Qden x) * 2 ^ p)
               else roundHalfEven (Zpos n * 2 ^ (- p)) (Zpos (Qden x)) in
      let s := Z.sgn (Qnum x) in
      if 0 <=? p
      then if 2 ^ 1024 <=? m * 2 ^ p
           then (if s <? 0 then NegInfinity else Infinity)
           else Finite (inject_Z (s * (m * 2 ^ p)))
      else Finite (Qred (Qmake (s * m) (Z.to_pos (2 ^ (- p)))))
  end.

(** The abstract relational comparison [x < y]; [None] is its result
    "undefined", returned when an operand is NaN. *)
Definition lessThan (x y : number) : option bool :=
  match x, y with
  | NaN, _ | _, NaN => None
  | Infinity, _ => Some false
  | _, Infinity => Some true
  | _, NegInfinity => Some false
  | NegInfinity, _ => Some true
  | Finite a, Finite b => Some (negb (Qle_bool b a))
  end.

(** [x >= y] is "not ([x < y])", and false when the comparison is
    undefined. *)
Definition ge (x y : number) : bool :=
  match lessThan x y with
  | Some false => true
  | _ => false
  end.

(** [x <= y] is "not ([y < x])", and false when the comparison is
    undefined. *)
Definition le (x y : number) : bool :=
  match lessThan y x with
  | Some false => true
  | _ => false
  end.

(** [x || 0] for the result of [parseInt]: NaN and zero are falsy. *)
Definition orZero (x : option Z) : Z :=
  match x with
  | Some v => v
  | None => 0
  end.

(** The result of [parseInt] as a number. *)
Definition ofParsedInt (x : option Z) : number :=
  match x with
  | Some v => roundToDouble (inject_Z v)
  | None => NaN
  end.

(** [Math.round]: the nearest integer, a tie going towards +Infinity. *)
Definition Math_round (q : Q) : Z := Qfloor (q + (1 # 2)).

(** Value of a digit in radix 10 or 16. *)
Definition digitValue (radix : Z) (c : ascii) : option Z :=
  let n := Z.of_nat (nat_of_ascii c) in
  let v := if (48 <=? n) && (n <=? 57) then Some (n - 48)
           else if (97 <=? n) && (n <=? 102) then Some (n - 87)
           else if (65 <=? n) && (n <=? 70) then Some (n - 55)
           else None in
  match v with
  | Some d => if d <? radix then Some d else None
  | None => None
  end.

(** Reads the longest run of digits at the start of [s]: the number of
    digits read, their value after [acc], and the rest of the string. *)
Fixpoint readDigits (radix : Z) (acc : Z) (s : string) : nat * Z * string :=
  match s with
  | EmptyString => (O, acc, s)
  | String c s' =>
      match digitValue radix c with
      | Some d =>
          let '(n, v, r) := readDigits radix (acc * radix + d) s' in (S n, v, r)
      | None => (O, acc, s)
      end
  end.

(** Splits an optional sign off the start of [s]. *)
Definition readSign (s : string) : Z * string :=
  match s with
  | String "-" r => (-1, r)
  | String "+" r => (1, r)
  | _ => (1, s)
  end.

(** [parseInt(s)] without a radix argument: leading white space, an
    optional sign, an optional [0x] or [0X] prefix selecting radix 16, then
    the longest run of digits; NaN when that run is empty. *)
Definition parseInt (s : string) : option Z :=
  let '(sign, s1) := readSign (JsString.trimStart s) in
  let '(radix, s2) :=
    match s1 with
    | String "0" (String "x" r) => (16, r)
    | String "0" (String "X" r) => (16, r)
    | _ => (10, s1)
    end in
  let '(n, v, _) := readDigits radix 0 s2 in
  match n with
  | O => None
  | S _ => Some (sign * v)
  end.

(** [m * 10 ^ e] as a rational. *)
Definition scale10 (m : Z) (e : Z) : Q :=
  if 0 <=? e then inject_Z (m * 10 ^ e)
  else Qmake m (Z.to_pos (10 ^ (- e))).

(** The exponent part [e], [e+] or [e-] followed by at least one digit;
    when the digits are missing the exponent is not part of the literal. *)
Definition readExponent (s : string) : Z :=
  match s with
  | String c r =>
      if Ascii.eqb c "e" || Ascii.eqb c "E" then
        let '(sign, r1) := readSign r in
        let '(n, v, _) := readDigits 10 0 r1 in
        match n with
        | O => 0
        | S _ => sign * v
        end
      else 0
  | EmptyString => 0
  end.

(** [parseFloat(s)]: leading white space, then the longest prefix that is
    a decimal literal: an optional sign followed by [Infinity], or by
    digits with an optional fraction, or by a fraction alone, and an
    optional exponent; NaN when there is no such prefix, and otherwise the
    double nearest to the value of the literal. *)
Definition parseFloat (s : string) : number :=
  let '(sign, s1) := readSign (JsString.trimStart s) in
  if JsString.startsWith s1 "Infinity"
  then (if sign <? 0 then NegInfinity else Infinity)
  else
    let '(ni, vi, r1) := readDigits 10 0 s1 in
    let '(nf, vf, r2) :=
      match r1 with
      | String "." r => readDigits 10 vi r
      | _ => (O, vi, r1)
      end in
    match (ni + nf)%nat with
    | O => NaN
    | S _ => roundToDouble (scale10 (sign * vf) (readExponent r2 - Z.of_nat nf))
    end.

End JsNumber.

Import JsString JsNumber.

(** ** Data model *)

(** [interface Keyword]. *)
Record Keyword : Type := mkKeyword {
  keyword : string;
  intent : string;
  volume : string;
  kd : Z;
  cpc : Q;
  trafficPotential : Z;
  parentKeyword : string
}.

(** The [type] of a [KeywordFilter]: ['all' | 'any']. *)
Inductive FilterType : Type := all | any.

(** [interface KeywordFilter]. *)
Record KeywordFilter : Type := mkKeywordFilter {
  type : FilterType;
  keywords : list string
}.

(** The object held by [selectedIntents]. *)
Record SelectedIntents : Type := mkSelectedIntents {
  informational : bool;
  transactional : bool;
  commercial : bool;
  navigational : bool
}.

(** The state of [App] that the filter reads. *)
Record FilterState : Type := mkFilterState {
  minVolume : string;
  maxVolume : string;
  minKD : string;
  maxKD : string;
  minCPC : string;
  maxCPC : string;
  minWordCount : string;
  maxWordCount : string;
  minTrafficPotential : string;
  maxTrafficPotential : string;
  selectedIntents : SelectedIntents;
  includeFilter : KeywordFilter;
  excludeFilter : KeywordFilter
}.

(** The values of the [useState] calls. *)
Definition initialFilterState : FilterState := {|
  minVolume := ""; maxVolume := "";
  minKD := ""; maxKD := "";
  minCPC := ""; maxCPC := "";
  minWordCount := ""; maxWordCount := "";
  minTrafficPotential := ""; maxTrafficPotential := "";
  selectedIntents := {| informational := false; transactional := false;
                        commercial := false; navigational := false |};
  includeFilter := {| type := all; keywords := [] |};
  excludeFilter := {| type := all; keywords := [] |}
|}.

Inductive SortField : Type := SortVolume | SortKD | SortCPC | SortTrafficPotential.
Inductive SortDirection : Type := asc | desc.

(** [sortField] (null when no column was chosen) and [sortDirection]. *)
Record SortState : Type := mkSortState {
  sortField : option SortField;
  sortDirection : SortDirection
}.

(** ** The filter *)

Definition getWordCount (keyword : string) : nat :=
  List.length (splitWhiteSpace (trim keyword)).

(** [parseInt(k.volume.replace(/,/g, '')) || 0], the expression that the
    filter, the comparator and [totalVolume] all use. *)
Definition parsedVolume (k : Keyword) : Z :=
  orZero (parseInt (removeCommas (volume k))).

(** [bound ? parseInt(bound) : dflt]. *)
Definition intBound (bound : string) (dflt : number) : number :=
  if truthy bound then ofParsedInt (parseInt bound) else dflt.

(** [bound ? parseFloat(bound) : dflt]. *)
Definition floatBound (bound : string) (dflt : number) : number :=
  if truthy bound then parseFloat bound else dflt.

Definition anyIntentSelected (si : SelectedIntents) : bool :=
  existsb (fun value => value)
    [informational si; transactional si; commercial si; navigational si].

(** [keyword.keyword.toLowerCase().includes(k.toLowerCase())]. *)
Definition containsTerm (kw : Keyword) (k : string) : bool :=
  includes (toLowerCase (keyword kw)) (toLowerCase k).

Definition intentMatch (st : FilterState) (kw : Keyword) : bool :=
  let si := selectedIntents st in
  negb (anyIntentSelected si) ||
  (informational si && includes (intent kw) "I"
   || transactional si && includes (intent kw) "T"
   || commercial si && includes (intent kw) "C"
   || navigational si && includes (intent kw) "N").

Definition includeMatch (st : FilterState) (kw : Keyword) : bool :=
  let f := includeFilter st in
  (List.length (keywords f) =? 0)%nat ||
  match type f with
  | all => forallb (containsTerm kw) (keywords f)
  | any => existsb (containsTerm kw) (keywords f)
  end.

Definition excludeMatch (st : FilterState) (kw : Keyword) : bool :=
  let f := excludeFilter st in
  (List.length (keywords f) =? 0)%nat ||
  match type f with
  | all => negb (forallb (containsTerm kw) (keywords f))
  | any => negb (existsb (containsTerm kw) (keywords f))
  end.

(** The callback of [keywords.filter]: does the record stay visible? *)
Definition evaluate (st : FilterState) (kw : Keyword) : bool :=
  let volume := ofZ (parsedVolume kw) in
  let minVol := intBound (minVolume st) NegInfinity in
  let maxVol := intBound (maxVolume st) Infinity in
  let minKDVal := intBound (minKD st) NegInfinity in
  let maxKDVal := intBound (maxKD st) Infinity in
  let minCPCVal := floatBound (minCPC st) NegInfinity in
  let maxCPCVal := floatBound (maxCPC st) Infinity in
  let wordCount := ofZ (Z.of_nat (getWordCount (keyword kw))) in
  let minWords := intBound (minWordCount st) NegInfinity in
  let maxWords := intBound (maxWordCount st) Infinity in
  let minTraffic := intBound (minTrafficPotential st) NegInfinity in
  let maxTraffic := intBound (maxTrafficPotential st) Infinity in
  ge volume minVol &&
  le volume maxVol &&
  ge (ofZ (kd kw)) minKDVal &&
  le (ofZ (kd kw)) maxKDVal &&
  ge (Finite (cpc kw)) minCPCVal &&
  le (Finite (cpc kw)) maxCPCVal &&
  ge wordCount minWords &&
  le wordCount maxWords &&
  ge (ofZ (trafficPotential kw)) minTraffic &&
  le (ofZ (trafficPotential kw)) maxTraffic &&
  intentMatch st kw &&
  includeMatch st kw &&
  excludeMatch st kw.

Definition filteredKeywords (st : FilterState) (ks : list Keyword) : list Keyword :=
  filter (evaluate st) ks.

(** ** The sort *)

(** [a[sortField]] for the three numeric columns. *)
Definition fieldValue (f : SortField) (k : Keyword) : Q :=
  match f with
  | SortVolume => inject_Z (parsedVolume k)
  | SortKD => inject_Z (kd k)
  | SortCPC => cpc k
  | SortTrafficPotential => inject_Z (trafficPotential k)
  end.

(** The comparator passed to [sort]. *)
Definition compareKeywords (ss : SortState) (a b : Keyword) : Q :=
  match sortField ss with
  | None => 0%Q
  | Some f =>
      let comparison :=
        match f with
        | SortVolume =>
            let volumeA := parsedVolume a in
            let volumeB := parsedVolume b in
            inject_Z (volumeA - volumeB)
        | _ => (fieldValue f a - fieldValue f b)%Q
        end in
      match sortDirection ss with
      | asc => comparison
      | desc => (- comparison)%Q
      end
  end.

(** [Array.prototype.sort] is a stable sort: an element moves behind
    another one only when the comparator returns a positive number for the
    pair.  It is modelled by insertion from the right. *)
Fixpoint insertSorted {A : Type} (cmp : A -> A -> Q) (x : A) (l : list A) : list A :=
  match l with
  | [] => [x]
  | y :: l' =>
      if Qle_bool (cmp x y) 0 then x :: l else y :: insertSorted cmp x l'
  end.

Fixpoint arraySort {A : Type} (cmp : A -> A -> Q) (l : list A) : list A :=
  match l with
  | [] => []
  | x :: l' => insertSorted cmp x (arraySort cmp l')
  end.

Definition sortedKeywords (ss : SortState) (filteredKeywords : list Keyword) : list Keyword :=
  arraySort (compareKeywords ss) filteredKeywords.

(** ** The aggregates *)

Definition totalVolume (filteredKeywords : list Keyword) : Z :=
  fold_left (fun sum item => let volume := parsedVolume item in sum + volume)
    filteredKeywords 0.

Definition averageKD (filteredKeywords : list Keyword) : Z :=
  if (0 <? List.length filteredKeywords)%nat
  then Math_round (inject_Z (fold_left (fun sum item => sum + kd item) filteredKeywords 0)
                   / inject_Z (Z.of_nat (List.length filteredKeywords)))
  else 0.

(** What one render shows: the sorted rows and the two statistics, all
    derived from the same filtered collection. *)
Definition render (st : FilterState) (ss : SortState) (ks : list Keyword)
  : list Keyword * Z * Z :=
  let fk := filteredKeywords st ks in
  (sortedKeywords ss fk, totalVolume fk, averageKD fk).

(** ** Vocabulary of the specification *)

(** The five numeric range dimensions of the filter. *)
Inductive RangeDimension : Type :=
| Volume | Difficulty | CostPerClick | WordCount | TrafficPotential.

(** The value of a record that a dimension compares. *)
Definition dimValue (d : RangeDimension) (kw : Keyword) : Q :=
  match d with
  | Volume => inject_Z (parsedVolume kw)
  | Difficulty => inject_Z (kd kw)
  | CostPerClick => cpc kw
  | WordCount => inject_Z (Z.of_nat (getWordCount (keyword kw)))
  | TrafficPotential => inject_Z (trafficPotential kw)
  end.

(** The bound strings of a dimension. *)
Definition minString (d : RangeDimension) (st : FilterState) : string :=
  match d with
  | Volume => minVolume st
  | Difficulty => minKD st
  | CostPerClick => minCPC st
  | WordCount => minWordCount st
  | TrafficPotential => minTrafficPotential st
  end.

Definition maxString (d : RangeDimension) (st : FilterState) : string :=
  match d with
  | Volume => maxVolume st
  | Difficulty => maxKD st
  | CostPerClick => maxCPC st
  | WordCount => maxWordCount st
  | TrafficPotential => maxTrafficPotential st
  end.

(** The parser that the filter applies to the bounds of a dimension. *)
Definition parseBound (d : RangeDimension) (s : string) : number :=
  match d with
  | CostPerClick => parseFloat s
  | _ => ofParsedInt (parseInt s)
  end.

(** The two numbers a dimension compares the value with. *)
Definition dimMin (d : RangeDimension) (st : FilterState) : number :=
  if truthy (minString d st) then parseBound d (minString d st) else NegInfinity.

Definition dimMax (d : RangeDimension) (st : FilterState) : number :=
  if truthy (maxString d st) then parseBound d (maxString d st) else Infinity.

(** The two conjuncts of [evaluate] that belong to a dimension. *)
Definition rangePass (d : RangeDimension) (st : FilterState) (kw : Keyword) : bool :=
  ge (Finite (dimValue d kw)) (dimMin d st) && le (Finite (dimValue d kw)) (dimMax d st).

(** Extended rationals and their order, used to read [min <= value <= max]
    with an unbounded side. *)
Inductive extended : Type :=
| MinusInf
| Real (q : Q)
| PlusInf.

Definition extLe (x y : extended) : Prop :=
  match x, y with
  | MinusInf, _ => True
  | _, PlusInf => True
  | Real a, Real b => (a <= b)%Q
  | _, _ => False
  end.

(** A number that is not NaN is an extended rational. *)
Definition toExtended (x : number) : option extended :=
  match x with
  | NaN => None
  | NegInfinity => Some MinusInf
  | Finite q => Some (Real q)
  | Infinity => Some PlusInf
  end.

(** Two strings that differ at most in the case of their letters. *)
Inductive sameIgnoringCase : string -> string -> Prop :=
| sic_empty : sameIgnoringCase EmptyString EmptyString
| sic_char a b s t :
    lowerChar a = lowerChar b -> sameIgnoringCase s t ->
    sameIgnoringCase (String a s) (String b t).

(** [t] is a substring of [s] when case is ignored. *)
Definition occursIgnoringCase (t s : string) : Prop :=
  exists pre mid post, s = pre ++ mid ++ post /\ sameIgnoringCase mid t.

(** The code unit [c] occurs in [s]. *)
Fixpoint hasChar (c : ascii) (s : string) : Prop :=
  match s with
  | EmptyString => False
  | String a s' => a = c \/ hasChar c s'
  end.

(** The letter that stands for each intent. *)
Inductive Intent : Type := Informational | Transactional | Commercial | Navigational.

Definition intentCode (i : Intent) : ascii :=
  match i with
  | Informational => "I"
  | Transactional => "T"
  | Commercial => "C"
  | Navigational => "N"
  end%char.

Definition isSelected (si : SelectedIntents) (i : Intent) : bool :=
  match i with
  | Informational => informational si
  | Transactional => transactional si
  | Commercial => commercial si
  | Navigational => navigational si
  end.

(** The number of maximal runs of code units that are not white space;
    [inToken] tells that the previous code unit belonged to such a run. *)
Fixpoint countTokens (inToken : bool) (s : string) : nat :=
  match s with
  | EmptyString => O
  | String c s' =>
      if isWhiteSpace c then countTokens false s'
      else ((if inToken then 0 else 1) + countTokens true s')%nat
  end.

(** A filter state without any active dimension. *)
Definition emptyFilterState (st : FilterState) : Prop :=
  (forall d, minString d st = EmptyString /\ maxString d st = EmptyString) /\
  (forall i, isSelected (selectedIntents st) i = false) /\
  keywords (includeFilter st) = [] /\
  keywords (excludeFilter st) = [].

(** Record and state builders for the examples. *)
Definition keywordOf (text : string) : Keyword :=
  mkKeyword text "" "" 0 0 0 "".

Definition withIntent (code : string) (kw : Keyword) : Keyword :=
  mkKeyword (keyword kw) code (volume kw) (kd kw) (cpc kw) (trafficPotential kw)
    (parentKeyword kw).

Definition withKD (n : Z) (kw : Keyword) : Keyword :=
  mkKeyword (keyword kw) (intent kw) (volume kw) n (cpc kw) (trafficPotential kw)
    (parentKeyword kw).

Definition withInclude (f : KeywordFilter) (st : FilterState) : FilterState :=
  mkFilterState (minVolume st) (maxVolume st) (minKD st) (maxKD st) (minCPC st)
    (maxCPC st) (minWordCount st) (maxWordCount st) (minTrafficPotential st)
    (maxTrafficPotential st) (selectedIntents st) f (excludeFilter st).

Definition withExclude (f : KeywordFilter) (st : FilterState) : FilterState :=
  mkFilterState (minVolume st) (maxVolume st) (minKD st) (maxKD st) (minCPC st)
    (maxCPC st) (minWordCount st) (maxWordCount st) (minTrafficPotential st)
    (maxTrafficPotential st) (selectedIntents st) (includeFilter st) f.

Definition withIntents (si : SelectedIntents) (st : FilterState) : FilterState :=
  mkFilterState (minVolume st) (maxVolume st) (minKD st) (maxKD st) (minCPC st)
    (maxCPC st) (minWordCount st) (maxWordCount st) (minTrafficPotential st)
    (maxTrafficPotential st) si (includeFilter st) (excludeFilter st).

(** Sets the lower bound string of a dimension. *)
Definition withMin (d : RangeDimension) (s : string) (st : FilterState) : FilterState :=
  mkFilterState
    (match d with Volume => s | _ => minVolume st end) (maxVolume st)
    (match d with Difficulty => s | _ => minKD st end) (maxKD st)
    (match d with CostPerClick => s | _ => minCPC st end) (maxCPC st)
    (match d with WordCount => s | _ => minWordCount st end) (maxWordCount st)
    (match d with TrafficPotential => s | _ => minTrafficPotential st end)
    (maxTrafficPotential st)
    (selectedIntents st) (includeFilter st) (excludeFilter st).

(** Sets the upper bound string of a dimension. *)
Definition withMax (d : RangeDimension) (s : string) (st : FilterState) : FilterState :=
  mkFilterState
    (minVolume st) (match d with Volume => s | _ => maxVolume st end)
    (minKD st) (match d with Difficulty => s | _ => maxKD st end)
    (minCPC st) (match d with CostPerClick => s | _ => maxCPC st end)
    (minWordCount st) (match d with WordCount => s | _ => maxWordCount st end)
    (minTrafficPotential st)
    (match d with TrafficPotential => s | _ => maxTrafficPotential st end)
    (selectedIntents st) (includeFilter st) (excludeFilter st).

(** The sum of an integer field over a collection. *)
Definition sumOf (f : Keyword -> Z) (l : list Keyword) : Z :=
  fold_right (fun k acc => f k + acc) 0 l.

(** [z] is [q] rounded to the nearest integer, a half rounding up. *)
Definition roundHalfUp (q : Q) (z : Z) : Prop :=
  (inject_Z z - (1 # 2) <= q)%Q /\ (q < inject_Z z + (1 # 2))%Q.

(** The number by which the comparator ranks a record: the value of the
    chosen column, negated for the descending direction. *)
Definition sortRank (ss : SortState) (k : Keyword) : Q :=
  match sortField ss with
  | None => 0%Q
  | Some f =>
      match sortDirection ss with
      | asc => fieldValue f k
      | desc => (- fieldValue f k)%Q
      end
  end.

(** The comparator places [a] and [b] at the same rank. *)
Definition comparesEqual {A : Type} (cmp : A -> A -> Q) (a b : A) : bool :=
  Qeq_bool (cmp a b) 0.

(** No element of [l] has to move behind a later one. *)
Definition inOrder {A : Type} (cmp : A -> A -> Q) (l : list A) : Prop :=
  StronglySorted (fun a b => (cmp a b <= 0)%Q) l.

(** ** Event handlers and derived display values *)

(** [sortField === field]. *)
Definition sortFieldEqb (f g : SortField) : bool :=
  match f, g with
  | SortVolume, SortVolume | SortKD, SortKD | SortCPC, SortCPC
  | SortTrafficPotential, SortTrafficPotential => true
  | _, _ => false
  end.

(** [handleSort]: a click on the header of a sortable column. *)
Definition handleSort (ss : SortState) (field : SortField) : SortState :=
  match sortField ss with
  | Some f =>
      if sortFieldEqb f field
      then mkSortState (sortField ss)
             (match sortDirection ss with asc => desc | desc => asc end)
      else mkSortState (Some field) desc
  | None => mkSortState (Some field) desc
  end.

(** The three glyphs of [getSortIcon]: the double arrow of a column that
    does not sort, the up arrow and the down arrow. *)
Inductive SortIcon : Type := IconBoth | IconUp | IconDown.

Definition getSortIcon (ss : SortState) (field : SortField) : SortIcon :=
  match sortField ss with
  | Some f =>
      if sortFieldEqb f field
      then match sortDirection ss with asc => IconUp | desc => IconDown end
      else IconBoth
  | None => IconBoth
  end.

(** [s !== '']. *)
Definition notEmpty (s : string) : bool := negb (String.eqb s EmptyString).

Definition isVolumeFilterActive (st : FilterState) : bool :=
  notEmpty (minVolume st) || notEmpty (maxVolume st).
Definition isKDFilterActive (st : FilterState) : bool :=
  notEmpty (minKD st) || notEmpty (maxKD st).
Definition isCPCFilterActive (st : FilterState) : bool :=
  notEmpty (minCPC st) || notEmpty (maxCPC st).
Definition isWordCountFilterActive (st : FilterState) : bool :=
  notEmpty (minWordCount st) || notEmpty (maxWordCount st).
Definition isTrafficPotentialFilterActive (st : FilterState) : bool :=
  notEmpty (minTrafficPotential st) || notEmpty (maxTrafficPotential st).
Definition isIntentFilterActive (st : FilterState) : bool :=
  existsb (fun value => value)
    [informational (selectedIntents st); transactional (selectedIntents st);
     commercial (selectedIntents st); navigational (selectedIntents st)].

(** The activity test that belongs to a range dimension. *)
Definition isRangeFilterActive (d : RangeDimension) (st : FilterState) : bool :=
  match d with
  | Volume => isVolumeFilterActive st
  | Difficulty => isKDFilterActive st
  | CostPerClick => isCPCFilterActive st
  | WordCount => isWordCountFilterActive st
  | TrafficPotential => isTrafficPotentialFilterActive st
  end.

(** The Clear button of a range panel: both bounds become [''']. *)
Definition clearRange (d : RangeDimension) (st : FilterState) : FilterState :=
  withMax d EmptyString (withMin d EmptyString st).

(** [handleIntentChange]: the check box of one intent flips its flag. *)
Definition handleIntentChange (st : FilterState) (i : Intent) : FilterState :=
  let prev := selectedIntents st in
  withIntents
    (mkSelectedIntents
       (match i with Informational => negb (informational prev) | _ => informational prev end)
       (match i with Transactional => negb (transactional prev) | _ => transactional prev end)
       (match i with Commercial => negb (commercial prev) | _ => commercial prev end)
       (match i with Navigational => negb (navigational prev) | _ => navigational prev end))
    st.

(** The Clear button of the intent panel. *)
Definition clearIntents (st : FilterState) : FilterState :=
  withIntents (mkSelectedIntents false false false false) st.

(** [Object.entries(selectedIntents)], in the order of the keys. *)
Definition intentEntries (si : SelectedIntents) : list (string * bool) :=
  [("informational", informational si); ("transactional", transactional si);
   ("commercial", commercial si); ("navigational", navigational si)].

(** Capital of one code unit, for the code units whose capital is again one
    code unit of the range: a..z and the Latin-1 small letters 0xE0..0xFE
    (0xF7, the division sign, excepted) move down by 32. *)
Definition upperChar (c : ascii) : ascii :=
  let n := nat_of_ascii c in
  if ((97 <=? n) && (n <=? 122)
      || (224 <=? n) && (n <=? 254) && negb (n =? 247))%nat
  then ascii_of_nat (n - 32) else c.

(** [key[0].toUpperCase()], for a key that is not empty. *)
Definition initialUpper (key : string) : string :=
  match key with
  | String c _ => String (upperChar c) EmptyString
  | EmptyString => EmptyString
  end.

(** [getIntentFilterSummary]; [None] is null. *)
Definition getIntentFilterSummary (st : FilterState) : option string :=
  if negb (isIntentFilterActive st) then None
  else
    let activeIntents :=
      String.concat ", "
        (map (fun e => initialUpper (fst e))
           (filter (fun e => snd e) (intentEntries (selectedIntents st)))) in
    Some activeIntents.

(** [array.filter((_, i) => p(i))], the indices counted from [i]. *)
Fixpoint filterIndex {A : Type} (p : nat -> bool) (i : nat) (l : list A) : list A :=
  match l with
  | [] => []
  | x :: l' => if p i then x :: filterIndex p (S i) l' else filterIndex p (S i) l'
  end.

(** The update of [handleAddIncludeKeyword] and [handleAddExcludeKeyword]
    on a filter and the text of its input box: the new filter and the new
    text. *)
Definition addKeyword (f : KeywordFilter) (input : string) : KeywordFilter * string :=
  if truthy (trim input)
  then (mkKeywordFilter (type f) (keywords f ++ [trim input]), EmptyString)
  else (f, input).

(** The update of [handleRemoveIncludeKeyword] and
    [handleRemoveExcludeKeyword]. *)
Definition removeKeyword (f : KeywordFilter) (index : nat) : KeywordFilter :=
  mkKeywordFilter (type f)
    (filterIndex (fun i => negb (i =? index)%nat) 0 (keywords f)).

(** The radio buttons of a text filter: [{ ...prev, type: t }]. *)
Definition setFilterType (f : KeywordFilter) (t : FilterType) : KeywordFilter :=
  mkKeywordFilter t (keywords f).

Definition handleAddIncludeKeyword (st : FilterState) (includeKeywordInput : string)
  : FilterState * string :=
  let '(f, input) := addKeyword (includeFilter st) includeKeywordInput in
  (withInclude f st, input).

Definition handleAddExcludeKeyword (st : FilterState) (excludeKeywordInput : string)
  : FilterState * string :=
  let '(f, input) := addKeyword (excludeFilter st) excludeKeywordInput in
  (withExclude f st, input).

Definition handleRemoveIncludeKeyword (st : FilterState) (index : nat) : FilterState :=
  withInclude (removeKeyword (includeFilter st) index) st.

Definition handleRemoveExcludeKeyword (st : FilterState) (index : nat) : FilterState :=
  withExclude (removeKeyword (excludeFilter st) index) st.

(** One user action on a text filter. *)
Inductive TermAction : Type :=
| AddTerm (input : string)
| RemoveTerm (index : nat)
| ChooseType (t : FilterType).

Definition applyTermAction (f : KeywordFilter) (a : TermAction) : KeywordFilter :=
  match a with
  | AddTerm input => fst (addKeyword f input)
  | RemoveTerm index => removeKeyword f index
  | ChooseType t => setFilterType f t
  end.

(** ** Ingestion *)

(** [row[i]]: the cell, or undefined ([None]) past the end of the row. *)
Definition cell (row : list string) (i : nat) : option string := nth_error row i.

(** [c || ''] for a cell. *)
Definition orEmpty (c : option string) : string :=
  match c with
  | Some s => s
  | None => EmptyString
  end.

(** The string that [parseInt] and [parseFloat] read from their argument:
    undefined is converted to ["undefined"]. *)
Definition argString (c : option string) : string :=
  match c with
  | Some s => s
  | None => "undefined"
  end.

(** [x || 0] for a number: NaN and zero are falsy. *)
Definition numberOrZero (x : number) : number :=
  match x with
  | NaN => Finite 0
  | Finite q => if Qeq_bool q 0 then Finite 0 else Finite q
  | _ => x
  end.

(** The object that the callback of [results.data.slice(1).map] builds
    from a row: the fields of [interface Keyword], the three numbers as
    JavaScript numbers. *)
Record ParsedRow : Type := mkParsedRow {
  rowKeyword : string;
  rowIntent : string;
  rowVolume : string;
  rowKd : number;
  rowCpc : number;
  rowTrafficPotential : number;
  rowParentKeyword : string
}.

Definition parseRow (row : list string) : ParsedRow := {|
  rowKeyword := orEmpty (cell row 0);
  rowIntent := orEmpty (cell row 1);
  rowVolume := orEmpty (cell row 2);
  rowKd := numberOrZero (ofParsedInt (parseInt (argString (cell row 3))));
  rowCpc := numberOrZero (parseFloat (argString (cell row 4)));
  rowTrafficPotential := numberOrZero (ofParsedInt (parseInt (argString (cell row 5))));
  rowParentKeyword := orEmpty (cell row 6)
|}.

(** [results.data.slice(1).map(...)]: the first row, the header, is
    dropped. *)
Definition parsedData (data : list (list string)) : list ParsedRow :=
  map parseRow (tl data).

(** ** More vocabulary *)

(** The rows are in ascending, respectively descending, order of a
    column, read from the fields of the records: every row is at most,
    respectively at least, every row below it. *)
Definition ascendingColumn (f : SortField) (l : list Keyword) : Prop :=
  match f with
  | SortVolume => StronglySorted (fun a b => parsedVolume a <= parsedVolume b) l
  | SortKD => StronglySorted (fun a b => kd a <= kd b) l
  | SortCPC => StronglySorted (fun a b => (cpc a <= cpc b)%Q) l
  | SortTrafficPotential =>
      StronglySorted (fun a b => trafficPotential a <= trafficPotential b) l
  end.

Definition descendingColumn (f : SortField) (l : list Keyword) : Prop :=
  match f with
  | SortVolume => StronglySorted (fun a b => parsedVolume b <= parsedVolume a) l
  | SortKD => StronglySorted (fun a b => kd b <= kd a) l
  | SortCPC => StronglySorted (fun a b => (cpc b <= cpc a)%Q) l
  | SortTrafficPotential =>
      StronglySorted (fun a b => trafficPotential b <= trafficPotential a) l
  end.

(** No two different records of [l] share their value in column [f]. *)
Definition noTies (f : SortField) (l : list Keyword) : Prop :=
  forall a b, In a l -> In b l -> (fieldValue f a == fieldValue f b)%Q -> a = b.

(** A term as the Add button stores it: not empty, without white space at
    its ends. *)
Definition storedTerm (t : string) : Prop :=
  t <> EmptyString /\ trim t = t.

(** A record is within the range of a dimension: neither bound is NaN and
    [min <= value <= max] in the extended rationals. *)
Definition inRange (d : RangeDimension) (st : FilterState) (kw : Keyword) : Prop :=
  exists lo hi,
    toExtended (dimMin d st) = Some lo /\ toExtended (dimMax d st) = Some hi /\
    extLe lo (Real (dimValue d kw)) /\ extLe (Real (dimValue d kw)) hi.

(** Decimal numerals: strings of the digits 0 to 9, and the integer they
    denote in positional notation. *)
Definition isDecimalDigit (c : ascii) : bool :=
  let n := nat_of_ascii c in ((48 <=? n) && (n <=? 57))%nat.

Fixpoint allDigits (s : string) : bool :=
  match s with
  | EmptyString => true
  | String c s' => isDecimalDigit c && allDigits s'
  end.

Fixpoint decimalValue (s : string) : Z :=
  match s with
  | EmptyString => 0
  | String c s' =>
      (Z.of_nat (nat_of_ascii c) - 48) * 10 ^ Z.of_nat (String.length s')
      + decimalValue s'
  end.

(** Letters and their case, by code unit: the capitals are A..Z and
    0xC0..0xDE without 0xD7, and the small letter of a capital lies 32
    above it.  Two code units are case variants when they are equal or one
    is the small letter of the other. *)
Definition isCapital (c : ascii) : bool :=
  let n := nat_of_ascii c in
  ((65 <=? n) && (n <=? 90) || (192 <=? n) && (n <=? 222) && negb (n =? 215))%nat.

Definition caseVariant (a b : ascii) : bool :=
  Ascii.eqb a b
  || isCapital a && (nat_of_ascii b =? nat_of_ascii a + 32)%nat
  || isCapital b && (nat_of_ascii a =? nat_of_ascii b + 32)%nat.

(** Two strings of the same length whose code units are case variants,
    position by position. *)
Fixpoint caseVariants (s t : string) : bool :=
  match s, t with
  | EmptyString, EmptyString => true
  | String a s', String b t' => caseVariant a b && caseVariants s' t'
  | _, _ => false
  end.

(** The 256 code units. *)
Definition allAscii : list ascii := map ascii_of_nat (seq 0 256).

(** A filter state in which every range is set, and a record that lies on
    a bound of every range. *)
Definition allRangesSet : FilterState :=
  withMin Volume "1000" (withMax Volume "2500"
  (withMin Difficulty "10" (withMax Difficulty "40"
  (withMin CostPerClick "0.5" (withMax CostPerClick "1.25"
  (withMin WordCount "2" (withMax WordCount "3"
  (withMin TrafficPotential "100" (withMax TrafficPotential "900"
     initialFilterState))))))))).

Definition onTheBounds : Keyword :=
  mkKeyword "seo tool" "I" "2,500" 10 (5 # 4) 900 "seo".

(** * Properties *)

(** ** Strings *)

Lemma startsWith_spec (s t : string) :
  startsWith s t = true <-> exists post, s = t ++ post.
Proof.
  revert s; induction t as [|b t IH]; intros s; simpl.
  - split; [intros _; exists s; reflexivity | reflexivity].
  - destruct s as [|a s]; simpl.
    + split; [discriminate | intros [post H]; discriminate].
    + rewrite andb_true_iff, Ascii.eqb_eq, IH. split.
      * intros [-> [post ->]]. exists post. reflexivity.
      * intros [post H]. injection H as -> ->. split; [reflexivity | eauto].
Qed.

Lemma includes_spec (s t : string) :
  includes s t = true <-> exists pre post, s = pre ++ t ++ post.
Proof.
  induction s as [|a s IH].
  - simpl. rewrite orb_false_r, startsWith_spec. split.
    + intros [post H]. exists EmptyString, post. exact H.
    + intros [pre [post H]]. destruct pre; simpl in H; [eauto | discriminate].
  - cbn [includes]. rewrite orb_true_iff, startsWith_spec, IH. split.
    + intros [[post H] | [pre [post H]]].
      * exists EmptyString, post. exact H.
      * exists (String a pre), post. simpl. now rewrite H.
    + intros [pre [post H]]. destruct pre as [|c pre]; simpl in H.
      * left. eauto.
      * right. injection H as _ ->. eauto.
Qed.

Lemma toLowerCase_app (a b : string) :
  toLowerCase (a ++ b) = toLowerCase a ++ toLowerCase b.
Proof.
  induction a as [|c a IH]; simpl; [reflexivity | now rewrite IH].
Qed.

Lemma toLowerCase_split (s x y : string) :
  toLowerCase s = x ++ y ->
  exists a b, s = a ++ b /\ toLowerCase a = x /\ toLowerCase b = y.
Proof.
  revert s; induction x as [|c x IH]; intros s H.
  - exists EmptyString, s. simpl in *. auto.
  - destruct s as [|d s]; simpl in H; [discriminate |].
    injection H as Hc Hs.
    destruct (IH _ Hs) as [a [b [-> [Ha Hb]]]].
    exists (String d a), b. simpl. now rewrite Hc, Ha, Hb.
Qed.

Lemma sameIgnoringCase_iff (a b : string) :
  sameIgnoringCase a b <-> toLowerCase a = toLowerCase b.
Proof.
  split.
  - induction 1 as [|a b s t Hc _ IH]; simpl; [reflexivity | now rewrite Hc, IH].
  - revert b; induction a as [|c a IH]; intros [|d b] H; simpl in H;
      try discriminate.
    + constructor.
    + injection H as Hc Hs. constructor; auto.
Qed.

Lemma allAscii_complete (a : ascii) : In a allAscii.
Proof.
  unfold allAscii. rewrite <- (ascii_nat_embedding a).
  apply in_map, in_seq. pose proof (nat_ascii_bounded a). lia.
Qed.

(** Two code units have the same image under the lower-case mapping
    exactly when they are case variants. *)
Lemma lowerChar_caseVariant (a b : ascii) :
  lowerChar a = lowerChar b <-> caseVariant a b = true.
Proof.
  assert (H : forallb (fun x => forallb (fun y =>
                Bool.eqb (Ascii.eqb (lowerChar x) (lowerChar y)) (caseVariant x y))
                allAscii) allAscii = true) by (vm_compute; reflexivity).
  rewrite forallb_forall in H. specialize (H a (allAscii_complete a)).
  rewrite forallb_forall in H. specialize (H b (allAscii_complete b)).
  apply eqb_prop in H. rewrite <- H. symmetry. apply Ascii.eqb_eq.
Qed.

Lemma sameIgnoringCase_caseVariants (s t : string) :
  sameIgnoringCase s t <-> caseVariants s t = true.
Proof.
  split.
  - induction 1 as [|a b s t Hc _ IH]; [reflexivity |].
    cbn [caseVariants]. apply lowerChar_caseVariant in Hc. now rewrite Hc, IH.
  - revert t; induction s as [|a s IH]; intros [|b t] H; cbn [caseVariants] in H;
      try discriminate H; [constructor |].
    apply andb_true_iff in H. destruct H as [Hc Hs].
    constructor; [now apply lowerChar_caseVariant | now apply IH].
Qed.

(** The test that both text filters apply to a term is containment up to
    the case of the letters. *)
Lemma containsTerm_spec (kw : Keyword) (t : string) :
  containsTerm kw t = true <-> occursIgnoringCase t (keyword kw).
Proof.
  unfold containsTerm, occursIgnoringCase. rewrite includes_spec. split.
  - intros [pre [post H]].
    apply toLowerCase_split in H. destruct H as [a [r [Hs [Ha Hr]]]].
    apply toLowerCase_split in Hr. destruct Hr as [m [b [-> [Hm Hb]]]].
    exists a, m, b. split; [exact Hs |]. now apply sameIgnoringCase_iff.
  - intros [pre [mid [post [-> H]]]]. apply sameIgnoringCase_iff in H.
    exists (toLowerCase pre), (toLowerCase post).
    now rewrite !toLowerCase_app, H.
Qed.

Lemma containsTerm_false (kw : Keyword) (t : string) :
  containsTerm kw t = false <-> ~ occursIgnoringCase t (keyword kw).
Proof.
  rewrite <- containsTerm_spec. destruct (containsTerm kw t); split;
    congruence.
Qed.

Lemma length_zero_nil {A : Type} (l : list A) :
  (List.length l =? 0)%nat = true <-> l = [].
Proof.
  destruct l; simpl; split; congruence.
Qed.

Lemma forallb_containsTerm (kw : Keyword) (ts : list string) :
  forallb (containsTerm kw) ts = true <->
  forall t, In t ts -> occursIgnoringCase t (keyword kw).
Proof.
  rewrite forallb_forall. split; intros H t Ht; apply containsTerm_spec; auto.
Qed.

Lemma existsb_containsTerm (kw : Keyword) (ts : list string) :
  existsb (containsTerm kw) ts = true <->
  exists t, In t ts /\ occursIgnoringCase t (keyword kw).
Proof.
  rewrite existsb_exists. split; intros [t [Ht H]]; exists t; split; auto;
    now apply containsTerm_spec.
Qed.

Lemma includes_char (s : string) (c : ascii) :
  includes s (String c EmptyString) = true <-> hasChar c s.
Proof.
  induction s as [|a s IH].
  - simpl. split; [discriminate | tauto].
  - cbn [includes hasChar]. rewrite orb_true_iff, IH. simpl.
    rewrite andb_true_r, Ascii.eqb_eq. tauto.
Qed.

(** ** Numbers *)

Lemma ge_finite (a : Q) (y : number) :
  ge (Finite a) y = true <->
  exists lo, toExtended y = Some lo /\ extLe lo (Real a).
Proof.
  destruct y as [| |b|]; unfold ge; simpl.
  - split; [discriminate | intros [lo [H _]]; discriminate].
  - split; [intros _; exists MinusInf; simpl; auto | reflexivity].
  - destruct (Qle_bool b a) eqn:E; simpl.
    + apply Qle_bool_iff in E. split; [intros _; exists (Real b); auto | reflexivity].
    + split; [discriminate |]. intros [lo [H Hle]]. injection H as <-.
      simpl in Hle. apply Qle_bool_iff in Hle. congruence.
  - split; [discriminate |]. intros [lo [H Hle]]. injection H as <-.
    contradiction.
Qed.

Lemma le_finite (a : Q) (y : number) :
  le (Finite a) y = true <->
  exists hi, toExtended y = Some hi /\ extLe (Real a) hi.
Proof.
  destruct y as [| |b|]; unfold le; simpl.
  - split; [discriminate | intros [hi [H _]]; discriminate].
  - split; [discriminate |]. intros [hi [H Hle]]. injection H as <-.
    contradiction.
  - destruct (Qle_bool a b) eqn:E; simpl.
    + apply Qle_bool_iff in E. split; [intros _; exists (Real b); auto | reflexivity].
    + split; [discriminate |]. intros [hi [H Hle]]. injection H as <-.
      simpl in Hle. apply Qle_bool_iff in Hle. congruence.
  - split; [intros _; exists PlusInf; simpl; auto | reflexivity].
Qed.

Lemma ge_NaN (x : number) : ge x NaN = false.
Proof. destruct x; reflexivity. Qed.

Lemma le_NaN (x : number) : le x NaN = false.
Proof. destruct x; reflexivity. Qed.

Lemma roundHalfEven_one (n : Z) : roundHalfEven n 1 = n.
Proof.
  unfold roundHalfEven. rewrite Z.mod_1_r, Z.div_1_r. reflexivity.
Qed.

Lemma floorLog2_integer (n : positive) : floorLog2 n 1 = Z.log2 (Zpos n).
Proof.
  unfold floorLog2. change (Z.log2 1) with 0. rewrite Z.sub_0_r.
  pose proof (Z.log2_nonneg (Zpos n)) as H0.
  pose proof (Z.log2_spec (Zpos n) ltac:(lia)) as [H1 _].
  destruct (0 <=? Z.log2 (Zpos n)) eqn:E; [| apply Z.leb_gt in E; lia].
  rewrite Z.mul_1_l.
  destruct (2 ^ Z.log2 (Z.pos n) <=? Z.pos n) eqn:E'; [reflexivity |].
  apply Z.leb_gt in E'. lia.
Qed.

Lemma Qred_scaled (v k : Z) :
  0 <= k -> Qred (Qmake (v * 2 ^ k) (Z.to_pos (2 ^ k))) = inject_Z v.
Proof.
  intros Hk.
  assert (Hp : 0 < 2 ^ k) by (apply Z.pow_pos_nonneg; lia).
  transitivity (Qred (inject_Z v)).
  - apply Qred_complete. unfold Qeq, inject_Z. cbn [Qnum Qden].
    rewrite Z2Pos.id by exact Hp. lia.
  - unfold Qred, inject_Z.
    pose proof (Z.ggcd_gcd v 1) as Hg.
    pose proof (Z.ggcd_correct_divisors v 1) as Hd.
    destruct (Z.ggcd v 1) as [g [aa bb]]. cbn [fst snd] in *.
    rewrite Z.gcd_1_r in Hg. subst g. destruct Hd as [Ha Hb].
    replace aa with v by lia. replace bb with 1 by lia. reflexivity.
Qed.

(** An integer below 2^53 in absolute value is a double: rounding leaves
    it as it is. *)
Lemma roundToDouble_safe_integer (v : Z) :
  Z.abs v < 2 ^ 53 -> roundToDouble (inject_Z v) = Finite (inject_Z v).
Proof.
  intros Hv. unfold roundToDouble, inject_Z. cbn [Qnum Qden].
  destruct v as [|n|n]; [reflexivity | |].
  all: rewrite floorLog2_integer.
  all: assert (He : Z.log2 (Zpos n) < 53)
         by (apply Z.log2_lt_pow2; [lia | cbn [Z.abs] in Hv; lia]).
  all: pose proof (Z.log2_nonneg (Zpos n)) as H0.
  all: set (e := Z.log2 (Zpos n)) in *.
  all: replace (Z.max (e - 52) (-1074)) with (e - 52) by lia.
  all: destruct (0 <=? e - 52) eqn:Ep.
  all: try (apply Z.leb_le in Ep; replace (e - 52) with 0 by lia;
            rewrite Z.pow_0_r, !Z.mul_1_r, roundHalfEven_one;
            destruct (2 ^ 1024 <=? Z.pos n) eqn:Eo;
            [apply Z.leb_le in Eo; cbn [Z.abs] in Hv;
             assert (2 ^ 53 < 2 ^ 1024) by (apply Z.pow_lt_mono_r; lia); lia
            | cbn [Z.sgn]; f_equal; f_equal; lia]).
  all: apply Z.leb_gt in Ep; rewrite roundHalfEven_one; cbn [Z.sgn]; f_equal.
  - rewrite Z.mul_1_l. apply (Qred_scaled (Zpos n)). lia.
  - replace (-1 * (Z.pos n * 2 ^ (- (e - 52))))
      with (Z.neg n * 2 ^ (- (e - 52))) by lia.
    apply (Qred_scaled (Zneg n)). lia.
Qed.

Lemma isDecimalDigit_cases (c : ascii) :
  isDecimalDigit c = true ->
  In c ["0"; "1"; "2"; "3"; "4"; "5"; "6"; "7"; "8"; "9"]%char.
Proof.
  destruct c as [[] [] [] [] [] [] [] []]; intros H; vm_compute in H;
    try discriminate H; simpl; tauto.
Qed.

Lemma digitValue_decimal (c : ascii) :
  isDecimalDigit c = true ->
  digitValue 10 c = Some (Z.of_nat (nat_of_ascii c) - 48).
Proof.
  intros H. apply isDecimalDigit_cases in H. simpl in H.
  repeat (destruct H as [<- | H]; [reflexivity |]). contradiction.
Qed.

Lemma readDigits_decimal (s : string) (acc : Z) :
  allDigits s = true ->
  readDigits 10 acc s
  = (String.length s, acc * 10 ^ Z.of_nat (String.length s) + decimalValue s,
     EmptyString).
Proof.
  revert acc; induction s as [|c s IH]; intros acc H.
  - simpl. f_equal. f_equal. lia.
  - cbn [allDigits] in H. apply andb_true_iff in H. destruct H as [Hc Hs].
    cbn [readDigits]. rewrite (digitValue_decimal c Hc), (IH _ Hs).
    cbn [String.length decimalValue]. f_equal. f_equal.
    rewrite Nat2Z.inj_succ, Z.pow_succ_r by lia. ring.
Qed.

(** [parseInt] reads a decimal numeral as the integer it denotes. *)
Lemma parseInt_decimal (s : string) :
  s <> EmptyString -> allDigits s = true -> parseInt s = Some (decimalValue s).
Proof.
  intros Hne Hd.
  assert (Hgoal : (let '(n, v, _) := readDigits 10 0 s in
                   match n with
                   | O => None
                   | S _ => Some (1 * v)
                   end) = Some (decimalValue s)).
  { rewrite (readDigits_decimal s 0 Hd).
    destruct s; [congruence |]. cbn [String.length]. f_equal. lia. }
  destruct s as [|c s]; [congruence |].
  pose proof Hd as Hd'. cbn [allDigits] in Hd'.
  apply andb_true_iff in Hd'. destruct Hd' as [Hc Hs].
  apply isDecimalDigit_cases in Hc. simpl in Hc.
  destruct Hc as [<- | Hc].
  - destruct s as [|c2 s2]; [reflexivity |].
    cbn [allDigits] in Hs. apply andb_true_iff in Hs. destruct Hs as [Hc2 _].
    apply isDecimalDigit_cases in Hc2. simpl in Hc2.
    repeat (destruct Hc2 as [<- | Hc2]; [exact Hgoal |]). contradiction.
  - repeat (destruct Hc as [<- | Hc]; [exact Hgoal |]). contradiction.
Qed.

Lemma parseBound_decimal (d : RangeDimension) (s : string) :
  d <> CostPerClick -> s <> EmptyString -> allDigits s = true ->
  decimalValue s < 2 ^ 53 ->
  parseBound d s = Finite (inject_Z (decimalValue s)).
Proof.
  intros Hd Hne Hs Hv.
  assert (H0 : 0 <= decimalValue s).
  { clear Hne Hv. induction s as [|c s IH]; [simpl; lia |].
    cbn [allDigits] in Hs. apply andb_true_iff in Hs. destruct Hs as [Hc Hs].
    cbn [decimalValue]. specialize (IH Hs).
    unfold isDecimalDigit in Hc. apply andb_true_iff in Hc.
    destruct Hc as [Hc _]. apply Nat.leb_le in Hc.
    assert (0 <= 10 ^ Z.of_nat (String.length s)) by (apply Z.pow_nonneg; lia).
    assert (0 <= Z.of_nat (nat_of_ascii c) - 48) by lia.
    apply Z.add_nonneg_nonneg; [now apply Z.mul_nonneg_nonneg | exact IH]. }
  assert (H : parseBound d s = roundToDouble (inject_Z (decimalValue s))).
  { destruct d; try congruence; unfold parseBound;
      now rewrite (parseInt_decimal s Hne Hs). }
  rewrite H. apply roundToDouble_safe_integer. lia.
Qed.

(** ** The filter, dimension by dimension *)

Lemma evaluate_dimensions (st : FilterState) (kw : Keyword) :
  evaluate st kw =
  rangePass Volume st kw && rangePass Difficulty st kw &&
  rangePass CostPerClick st kw && rangePass WordCount st kw &&
  rangePass TrafficPotential st kw &&
  intentMatch st kw && includeMatch st kw && excludeMatch st kw.
Proof.
  unfold evaluate, rangePass, dimMin, dimMax, intBound, floatBound, ofZ; simpl.
  now rewrite !andb_assoc.
Qed.

Lemma evaluate_true_iff (st : FilterState) (kw : Keyword) :
  evaluate st kw = true <->
  (forall d, rangePass d st kw = true) /\
  intentMatch st kw = true /\ includeMatch st kw = true /\
  excludeMatch st kw = true.
Proof.
  rewrite evaluate_dimensions, !andb_true_iff. split.
  - intros [[[[[[[H1 H2] H3] H4] H5] H6] H7] H8].
    repeat split; auto. intros []; assumption.
  - intros [H [H6 [H7 H8]]]. repeat split; auto.
Qed.

Lemma dimMin_unset (d : RangeDimension) (st : FilterState) :
  minString d st = EmptyString -> dimMin d st = NegInfinity.
Proof. unfold dimMin. now intros ->. Qed.

Lemma dimMax_unset (d : RangeDimension) (st : FilterState) :
  maxString d st = EmptyString -> dimMax d st = Infinity.
Proof. unfold dimMax. now intros ->. Qed.

Lemma rangePass_spec (d : RangeDimension) (st : FilterState) (kw : Keyword) :
  rangePass d st kw = true <->
  exists lo hi,
    toExtended (dimMin d st) = Some lo /\ toExtended (dimMax d st) = Some hi /\
    extLe lo (Real (dimValue d kw)) /\ extLe (Real (dimValue d kw)) hi.
Proof.
  unfold rangePass. rewrite andb_true_iff, ge_finite, le_finite. split.
  - intros [[lo [Hlo Hle]] [hi [Hhi Hge]]]. exists lo, hi. auto.
  - intros [lo [hi [Hlo [Hhi [Hle Hge]]]]]. split; eauto.
Qed.

Lemma anyIntentSelected_false (si : SelectedIntents) :
  anyIntentSelected si = false <-> forall i, isSelected si i = false.
Proof.
  unfold anyIntentSelected; simpl. rewrite orb_false_r. split.
  - intros H i.
    destruct (informational si) eqn:E1, (transactional si) eqn:E2,
      (commercial si) eqn:E3, (navigational si) eqn:E4; try discriminate.
    destruct i; assumption.
  - intros H.
    pose proof (H Informational) as H1. pose proof (H Transactional) as H2.
    pose proof (H Commercial) as H3. pose proof (H Navigational) as H4.
    simpl in *. now rewrite H1, H2, H3, H4.
Qed.

Lemma anyIntentSelected_true (si : SelectedIntents) :
  anyIntentSelected si = true <-> exists i, isSelected si i = true.
Proof.
  split.
  - intros H. destruct (informational si) eqn:E1; [now exists Informational |].
    destruct (transactional si) eqn:E2; [now exists Transactional |].
    destruct (commercial si) eqn:E3; [now exists Commercial |].
    destruct (navigational si) eqn:E4; [now exists Navigational |].
    unfold anyIntentSelected in H; simpl in H.
    rewrite E1, E2, E3, E4 in H. discriminate.
  - intros [i Hi]. destruct (anyIntentSelected si) eqn:E; [reflexivity |].
    rewrite anyIntentSelected_false in E. congruence.
Qed.

(** When some intent is selected, the intent test is a disjunction over
    the selected letters. *)
Lemma intentMatch_selected (st : FilterState) (kw : Keyword) :
  anyIntentSelected (selectedIntents st) = true ->
  (intentMatch st kw = true <->
   exists i, isSelected (selectedIntents st) i = true /\
             hasChar (intentCode i) (intent kw)).
Proof.
  intros Hany. unfold intentMatch. rewrite Hany. cbn [negb orb].
  rewrite !orb_true_iff, !andb_true_iff, !includes_char. split.
  - intros [[[[H1 H2] | [H1 H2]] | [H1 H2]] | [H1 H2]].
    + exists Informational. auto.
    + exists Transactional. auto.
    + exists Commercial. auto.
    + exists Navigational. auto.
  - intros [[] [H1 H2]]; simpl in H1, H2; tauto.
Qed.

(** ** Text filters *)

(** C1. With exclude mode ALL and at least one term, the exclude dimension
    rejects a record exactly when every exclude term occurs in its keyword
    (ignoring case), so a record that lacks one of the terms passes the
    dimension; a record that the dimension rejects is rejected by the
    filter.  With the terms "free" and "trial", "free trial offer" is
    rejected and "free offer" is not. *)
Theorem exclude_all_rejects_only_when_every_term_occurs :
  (forall st kw,
      type (excludeFilter st) = all ->
      keywords (excludeFilter st) <> [] ->
      (excludeMatch st kw = false <->
       forall t, In t (keywords (excludeFilter st)) ->
                 occursIgnoringCase t (keyword kw)) /\
      ((exists t, In t (keywords (excludeFilter st)) /\
                  ~ occursIgnoringCase t (keyword kw)) ->
       excludeMatch st kw = true) /\
      (excludeMatch st kw = false -> evaluate st kw = false)) /\
  (let st := withExclude (mkKeywordFilter all ["free"; "trial"]) initialFilterState in
   excludeMatch st (keywordOf "free trial offer") = false /\
   evaluate st (keywordOf "free trial offer") = false /\
   excludeMatch st (keywordOf "free offer") = true /\
   evaluate st (keywordOf "free offer") = true).
Proof.
  split; [| vm_compute; auto].
  intros st kw Hall Hne.
  assert (Hlen : (List.length (keywords (excludeFilter st)) =? 0)%nat = false).
  { destruct (keywords (excludeFilter st)); [congruence | reflexivity]. }
  assert (Hex : excludeMatch st kw =
                negb (forallb (containsTerm kw) (keywords (excludeFilter st)))).
  { unfold excludeMatch. cbv zeta. now rewrite Hlen, Hall. }
  repeat split.
  - rewrite Hex, negb_false_iff. apply forallb_containsTerm.
  - rewrite Hex, negb_false_iff. apply forallb_containsTerm.
  - intros [t [Hin Hno]]. rewrite Hex, negb_true_iff.
    destruct (forallb (containsTerm kw) (keywords (excludeFilter st))) eqn:E;
      [| reflexivity].
    rewrite forallb_containsTerm in E. elim Hno. auto.
  - intros H. rewrite evaluate_dimensions, H. apply andb_false_r.
Qed.

Lemma exclude_all_witness :
  let st := withExclude (mkKeywordFilter all ["Free"; "TRIAL"]) initialFilterState in
  let kw := keywordOf "Free Trial offer" in
  type (excludeFilter st) = all /\
  keywords (excludeFilter st) <> [] /\
  (excludeMatch st kw = false <->
   forall t, In t (keywords (excludeFilter st)) ->
             occursIgnoringCase t (keyword kw)).
Proof.
  intros st kw.
  split; [reflexivity |]. split; [discriminate |].
  apply (proj1 exclude_all_rejects_only_when_every_term_occurs st kw);
    [reflexivity | discriminate].
Defined.

(** C6. With at least one include term, the include dimension passes a
    record exactly when every term (mode ALL), respectively at least one
    term (mode ANY), occurs in its keyword, ignoring case; without terms it
    always passes, and a record that the filter keeps passes it.  Ignoring
    case means that the code units compared are equal or a capital and its
    small letter.  Mode ALL with "seo" and "tool" passes "best seo tool"
    and fails "seo guide"; mode ANY passes "seo guide" and fails
    "pricing page"; capitals in the terms or in the keyword change
    nothing. *)
Theorem include_filter_semantics :
  (forall st kw,
      keywords (includeFilter st) <> [] ->
      (includeMatch st kw = true <->
       match type (includeFilter st) with
       | all => forall t, In t (keywords (includeFilter st)) ->
                          occursIgnoringCase t (keyword kw)
       | any => exists t, In t (keywords (includeFilter st)) /\
                          occursIgnoringCase t (keyword kw)
       end)) /\
  (forall st kw, keywords (includeFilter st) = [] -> includeMatch st kw = true) /\
  (forall st kw, evaluate st kw = true -> includeMatch st kw = true) /\
  (forall s t, sameIgnoringCase s t <-> caseVariants s t = true) /\
  (let st := withInclude (mkKeywordFilter all ["seo"; "tool"]) initialFilterState in
   includeMatch st (keywordOf "best seo tool") = true /\
   includeMatch st (keywordOf "seo guide") = false) /\
  (let st := withInclude (mkKeywordFilter any ["seo"; "tool"]) initialFilterState in
   includeMatch st (keywordOf "seo guide") = true /\
   includeMatch st (keywordOf "pricing page") = false) /\
  (let st := withInclude (mkKeywordFilter all ["SEO"; "Tool"]) initialFilterState in
   includeMatch st (keywordOf "best seo tool") = true /\
   evaluate st (keywordOf "Best Seo TOOL") = true /\
   evaluate st (keywordOf "SEO guide") = false) /\
  (let st := withInclude (mkKeywordFilter any ["seo"; "tool"]) initialFilterState in
   evaluate st (keywordOf "SEO Guide") = true /\
   evaluate st (keywordOf "Pricing Page") = false).
Proof.
  split; [| split; [| split; [| split; [| repeat split; vm_compute; reflexivity]]]].
  - intros st kw Hne. unfold includeMatch. cbv zeta.
    destruct (keywords (includeFilter st)) as [|t0 ts] eqn:Ek; [congruence |].
    cbn [List.length Nat.eqb orb].
    destruct (type (includeFilter st)).
    + apply forallb_containsTerm.
    + apply existsb_containsTerm.
  - intros st kw Hnil. unfold includeMatch. cbv zeta. now rewrite Hnil.
  - intros st kw H. apply evaluate_true_iff in H. tauto.
  - exact sameIgnoringCase_caseVariants.
Qed.

Lemma include_filter_witness :
  let st := withInclude (mkKeywordFilter any ["SEO"; "tool"]) initialFilterState in
  let kw := keywordOf "Seo guide" in
  keywords (includeFilter st) <> [] /\
  (exists t, In t ["SEO"; "tool"] /\ occursIgnoringCase t "Seo guide") /\
  includeMatch st kw = true.
Proof.
  intros st kw.
  assert (Hocc : exists t, In t ["SEO"; "tool"] /\ occursIgnoringCase t "Seo guide").
  { exists "SEO". split; [now left |].
    exists EmptyString, "Seo", " guide". split; [reflexivity |].
    repeat constructor. }
  split; [discriminate |]. split; [exact Hocc |].
  apply (proj1 include_filter_semantics st kw); [discriminate | exact Hocc].
Defined.

(** ** Intents *)

(** C7. The intent dimension passes every record when no intent is
    selected; otherwise it passes exactly the records whose intent string
    contains the letter of at least one selected intent, whatever the
    include and exclude filters are.  With Informational and Commercial
    selected, intent "T,C" passes and intent "T,N" is rejected. *)
Theorem intent_dimension_semantics :
  (forall st kw,
      (forall i, isSelected (selectedIntents st) i = false) ->
      intentMatch st kw = true) /\
  (forall st kw,
      (exists i, isSelected (selectedIntents st) i = true) ->
      (intentMatch st kw = true <->
       exists i, isSelected (selectedIntents st) i = true /\
                 hasChar (intentCode i) (intent kw))) /\
  (forall st kw f g,
      intentMatch (withInclude f (withExclude g st)) kw = intentMatch st kw) /\
  (let st := withIntents (mkSelectedIntents true false true false) initialFilterState in
   intentMatch st (withIntent "T,C" (keywordOf "seo tool")) = true /\
   evaluate st (withIntent "T,C" (keywordOf "seo tool")) = true /\
   intentMatch st (withIntent "T,N" (keywordOf "seo tool")) = false /\
   evaluate st (withIntent "T,N" (keywordOf "seo tool")) = false).
Proof.
  split; [| split; [| split; [reflexivity | vm_compute; auto]]].
  - intros st kw Hnone. apply anyIntentSelected_false in Hnone.
    unfold intentMatch. cbv zeta. now rewrite Hnone.
  - intros st kw Hsome. apply intentMatch_selected.
    now apply anyIntentSelected_true.
Qed.

Lemma intent_dimension_witness :
  let st := withIntents (mkSelectedIntents false true false false) initialFilterState in
  let kw := withIntent "I,T" (keywordOf "buy shoes") in
  (exists i, isSelected (selectedIntents st) i = true) /\
  (intentMatch st kw = true <->
   exists i, isSelected (selectedIntents st) i = true /\
             hasChar (intentCode i) (intent kw)).
Proof.
  intros st kw.
  assert (Hsome : exists i, isSelected (selectedIntents st) i = true)
    by (exists Transactional; reflexivity).
  split; [exact Hsome |].
  exact (proj1 (proj2 intent_dimension_semantics) st kw Hsome).
Defined.

(** C10. The intent test looks for the upper-case letters I, T, C and N:
    when some intent is selected and the intent string of a record holds
    the letter of no selected intent in upper case, the record fails the
    intent dimension, also when it holds that letter in lower case.  With
    Informational selected, intent "i" does not pass. *)
Theorem intent_match_is_case_sensitive :
  (forall i, intentCode i <> lowerChar (intentCode i)) /\
  (forall st kw,
      (exists i, isSelected (selectedIntents st) i = true) ->
      (forall i, isSelected (selectedIntents st) i = true ->
                 ~ hasChar (intentCode i) (intent kw)) ->
      intentMatch st kw = false /\ evaluate st kw = false) /\
  (let st := withIntents (mkSelectedIntents true false false false) initialFilterState in
   let kw := withIntent "i" (keywordOf "what is seo") in
   hasChar (lowerChar (intentCode Informational)) (intent kw) /\
   intentMatch st kw = false /\ evaluate st kw = false).
Proof.
  split; [intros []; vm_compute; discriminate |].
  split; [| vm_compute; auto].
  intros st kw Hsome Hno.
  assert (H : intentMatch st kw = false).
  { destruct (intentMatch st kw) eqn:E; [| reflexivity].
    apply intentMatch_selected in E; [| now apply anyIntentSelected_true].
    destruct E as [i [Hi Hc]]. elim (Hno i Hi Hc). }
  split; [exact H |].
  rewrite evaluate_dimensions, H. now rewrite !andb_false_r.
Qed.

Lemma intent_case_witness :
  let st := withIntents (mkSelectedIntents false false true true) initialFilterState in
  let kw := withIntent "c,n,I" (keywordOf "seo agency") in
  (exists i, isSelected (selectedIntents st) i = true) /\
  (forall i, isSelected (selectedIntents st) i = true ->
             ~ hasChar (intentCode i) (intent kw)) /\
  intentMatch st kw = false /\ evaluate st kw = false.
Proof.
  intros st kw.
  assert (Hsome : exists i, isSelected (selectedIntents st) i = true)
    by (exists Commercial; reflexivity).
  assert (Hno : forall i, isSelected (selectedIntents st) i = true ->
                          ~ hasChar (intentCode i) (intent kw)).
  { intros [] Hi; try discriminate Hi; simpl;
      intros H; repeat (destruct H as [H | H]; [discriminate H |]); exact H. }
  split; [exact Hsome |]. split; [exact Hno |].
  exact (proj1 (proj2 intent_match_is_case_sensitive) st kw Hsome Hno).
Defined.

(** ** Numeric ranges *)

Lemma rangePass_unset (d : RangeDimension) (st : FilterState) (kw : Keyword) :
  minString d st = EmptyString -> maxString d st = EmptyString ->
  rangePass d st kw = true.
Proof.
  intros Hmin Hmax. unfold rangePass.
  now rewrite (dimMin_unset _ _ Hmin), (dimMax_unset _ _ Hmax).
Qed.

(** C4. A filter state in which the ten bounds are unset, no intent is
    selected and both term lists are empty passes every record, so that
    filtering a collection with it returns the collection itself, in its
    order. *)
Theorem empty_filter_state_is_identity (st : FilterState) :
  emptyFilterState st ->
  (forall kw, evaluate st kw = true) /\
  (forall ks, filteredKeywords st ks = ks).
Proof.
  intros [Hbounds [Hintents [Hinc Hexc]]].
  assert (Hpass : forall kw, evaluate st kw = true).
  { intros kw. apply evaluate_true_iff. repeat split.
    - intros d. destruct (Hbounds d). now apply rangePass_unset.
    - apply anyIntentSelected_false in Hintents.
      unfold intentMatch. cbv zeta. now rewrite Hintents.
    - unfold includeMatch. cbv zeta. now rewrite Hinc.
    - unfold excludeMatch. cbv zeta. now rewrite Hexc. }
  split; [exact Hpass |].
  intros ks. unfold filteredKeywords.
  induction ks as [|k ks IH]; simpl; [reflexivity |].
  now rewrite Hpass, IH.
Qed.

Lemma initialFilterState_empty : emptyFilterState initialFilterState.
Proof.
  repeat split; try reflexivity.
  - now destruct d.
  - now destruct d.
  - now destruct i.
Qed.

Lemma empty_filter_state_witness :
  emptyFilterState initialFilterState /\
  (forall kw, evaluate initialFilterState kw = true) /\
  (forall ks, filteredKeywords initialFilterState ks = ks).
Proof.
  split; [exact initialFilterState_empty |].
  exact (empty_filter_state_is_identity initialFilterState initialFilterState_empty).
Defined.

Lemma inRange_rangePass (d : RangeDimension) (st : FilterState) (kw : Keyword) :
  inRange d st kw <-> rangePass d st kw = true.
Proof.
  unfold inRange. symmetry. apply rangePass_spec.
Qed.

(** C5. The filter keeps a record exactly when the record is within the
    range of each of the five range dimensions and passes the intent, the
    include and the exclude dimension.  For a dimension neither bound of
    which is NaN, being within the range is [min <= value <= max], where
    an unset bound is minus infinity (min) or plus infinity (max) and a
    bound written as a decimal numeral is the integer written; a value
    equal to the lower or to the upper bound passes.  The bounds of the
    four integer dimensions are read by [parseInt], which stops at the
    first code unit that is not a digit. *)
Theorem range_dimension_semantics
    (d : RangeDimension) (st : FilterState) (kw : Keyword) (lo hi : extended) :
  toExtended (dimMin d st) = Some lo ->
  toExtended (dimMax d st) = Some hi ->
  (evaluate st kw = true <->
   (forall d', inRange d' st kw) /\
   intentMatch st kw = true /\ includeMatch st kw = true /\
   excludeMatch st kw = true) /\
  (inRange d st kw <->
   extLe lo (Real (dimValue d kw)) /\ extLe (Real (dimValue d kw)) hi) /\
  (rangePass d st kw = true <->
   extLe lo (Real (dimValue d kw)) /\ extLe (Real (dimValue d kw)) hi) /\
  (minString d st = EmptyString -> lo = MinusInf) /\
  (maxString d st = EmptyString -> hi = PlusInf) /\
  (forall q, lo = Real q -> (q == dimValue d kw)%Q ->
             extLe (Real (dimValue d kw)) hi -> rangePass d st kw = true) /\
  (forall q, hi = Real q -> (q == dimValue d kw)%Q ->
             extLe lo (Real (dimValue d kw)) -> rangePass d st kw = true) /\
  (evaluate st kw = true -> rangePass d st kw = true) /\
  (forall s, d <> CostPerClick -> s <> EmptyString -> allDigits s = true ->
             decimalValue s < 2 ^ 53 ->
             (minString d st = s -> lo = Real (inject_Z (decimalValue s))) /\
             (maxString d st = s -> hi = Real (inject_Z (decimalValue s)))) /\
  (evaluate allRangesSet onTheBounds = true /\
   evaluate allRangesSet (mkKeyword "seo tool" "I" "999" 10 (5 # 4) 900 "seo") = false /\
   evaluate allRangesSet (mkKeyword "seo tool" "I" "2,501" 10 (5 # 4) 900 "seo") = false /\
   evaluate allRangesSet (mkKeyword "seo tool" "I" "2,500" 9 (5 # 4) 900 "seo") = false /\
   evaluate allRangesSet (mkKeyword "seo tool" "I" "2,500" 41 (5 # 4) 900 "seo") = false /\
   evaluate allRangesSet (mkKeyword "seo tool" "I" "2,500" 10 (49 # 100) 900 "seo") = false /\
   evaluate allRangesSet (mkKeyword "seo tool" "I" "2,500" 10 (126 # 100) 900 "seo") = false /\
   evaluate allRangesSet (mkKeyword "seo" "I" "2,500" 10 (5 # 4) 900 "seo") = false /\
   evaluate allRangesSet (mkKeyword "best free seo tool" "I" "2,500" 10 (5 # 4) 900 "seo") = false /\
   evaluate allRangesSet (mkKeyword "seo tool" "I" "2,500" 10 (5 # 4) 99 "seo") = false /\
   evaluate allRangesSet (mkKeyword "seo tool" "I" "2,500" 10 (5 # 4) 901 "seo") = false) /\
  (evaluate (withMax Difficulty "40" initialFilterState)
     (mkKeyword "seo tool" "I" "" (-5) 0 0 "") = true /\
   evaluate (withMin Difficulty "10" initialFilterState)
     (mkKeyword "seo tool" "I" "" 1000 0 0 "") = true /\
   evaluate (withMax Volume "40" (withMax CostPerClick "2"
               (withMax TrafficPotential "7" initialFilterState)))
     (mkKeyword "seo tool" "I" "-3" 0 (-1 # 2) (-4) "") = true /\
   evaluate (withMin Volume "40" (withMin CostPerClick "2" (withMin WordCount "2"
               (withMin TrafficPotential "7" initialFilterState))))
     (mkKeyword "a b c d e f g h i j k l" "I" "9,000,000,000" 0
        (500000 # 1) 8000000000 "") = true /\
   dimMin CostPerClick (withMin CostPerClick "0.50000000000000001" initialFilterState)
   = Finite (1 # 2) /\
   dimMax CostPerClick (withMax CostPerClick "1e400" initialFilterState) = Infinity /\
   dimMin Difficulty (withMin Difficulty "12.7" initialFilterState) = Finite 12 /\
   dimMin Volume (withMin Volume "1e3" initialFilterState) = Finite 1).
Proof.
  intros Hlo Hhi.
  assert (Hiff : rangePass d st kw = true <->
                 extLe lo (Real (dimValue d kw)) /\ extLe (Real (dimValue d kw)) hi).
  { rewrite rangePass_spec. split.
    - intros [lo' [hi' [Hlo' [Hhi' H]]]]. congruence.
    - intros H. exists lo, hi. tauto. }
  split.
  { rewrite evaluate_true_iff. split; intros [Hr H]; (split; [| exact H]);
      intros d'; apply inRange_rangePass, Hr. }
  split; [now rewrite inRange_rangePass |].
  split; [exact Hiff |].
  split; [intros H; rewrite (dimMin_unset _ _ H) in Hlo; simpl in Hlo; congruence |].
  split; [intros H; rewrite (dimMax_unset _ _ H) in Hhi; simpl in Hhi; congruence |].
  split; [| split; [| split; [| split]]].
  - intros q -> Heq Hle. apply Hiff. split; [| exact Hle].
    simpl. rewrite Heq. apply Qle_refl.
  - intros q -> Heq Hle. apply Hiff. split; [exact Hle |].
    simpl. rewrite Heq. apply Qle_refl.
  - intros H. apply evaluate_true_iff in H. apply H.
  - intros s Hd Hne Hs Hv.
    pose proof (parseBound_decimal d s Hd Hne Hs Hv) as Hp.
    assert (Ht : truthy s = true) by (destruct s; [congruence | reflexivity]).
    split; intros Hstr.
    + unfold dimMin in Hlo. rewrite Hstr, Ht, Hp in Hlo.
      cbn [toExtended] in Hlo. congruence.
    + unfold dimMax in Hhi. rewrite Hstr, Ht, Hp in Hhi.
      cbn [toExtended] in Hhi. congruence.
  - split; repeat split; vm_compute; reflexivity.
Qed.

Lemma range_dimension_witness :
  let st := withMin Volume "1000" (withMax Volume "2500" initialFilterState) in
  let kw := mkKeyword "seo tool" "I" "2,500" 40 (5 # 4) 900 "seo" in
  toExtended (dimMin Volume st) = Some (Real 1000) /\
  toExtended (dimMax Volume st) = Some (Real 2500) /\
  (rangePass Volume st kw = true <->
   extLe (Real 1000) (Real (dimValue Volume kw)) /\
   extLe (Real (dimValue Volume kw)) (Real 2500)) /\
  (evaluate st kw = true <->
   (forall d', inRange d' st kw) /\
   intentMatch st kw = true /\ includeMatch st kw = true /\
   excludeMatch st kw = true).
Proof.
  intros st kw.
  split; [reflexivity |]. split; [reflexivity |].
  pose proof (range_dimension_semantics Volume st kw (Real 1000) (Real 2500)
                eq_refl eq_refl) as H.
  split; [apply H | apply H].
Defined.

(** A bound string that is not empty and does not parse gives the bound
    NaN, and every comparison with NaN is false: the record fails that
    dimension, whatever the other bound is, and the filter rejects it. *)
Theorem unparsable_bound_rejects_every_record
    (d : RangeDimension) (st : FilterState) (kw : Keyword) :
  (minString d st <> EmptyString /\ parseBound d (minString d st) = NaN) \/
  (maxString d st <> EmptyString /\ parseBound d (maxString d st) = NaN) ->
  rangePass d st kw = false /\ evaluate st kw = false.
Proof.
  intros H.
  assert (Hr : rangePass d st kw = false).
  { unfold rangePass, dimMin, dimMax.
    destruct H as [[Hne Hnan] | [Hne Hnan]].
    - destruct (minString d st) eqn:E; [congruence |].
      cbn [truthy]. rewrite Hnan, ge_NaN. reflexivity.
    - destruct (maxString d st) eqn:E; [congruence |].
      cbn [truthy]. rewrite Hnan, le_NaN. apply andb_false_r. }
  split; [exact Hr |].
  destruct (evaluate st kw) eqn:E; [| reflexivity].
  apply evaluate_true_iff in E. destruct E as [E _].
  specialize (E d). congruence.
Qed.

Lemma unparsable_bound_witness :
  let st := withMax CostPerClick "-" (withMin CostPerClick "0.5" initialFilterState) in
  let kw := mkKeyword "seo tool" "I" "2,500" 40 (5 # 4) 900 "seo" in
  ((minString CostPerClick st <> EmptyString /\
    parseBound CostPerClick (minString CostPerClick st) = NaN) \/
   (maxString CostPerClick st <> EmptyString /\
    parseBound CostPerClick (maxString CostPerClick st) = NaN)) /\
  rangePass CostPerClick st kw = false /\ evaluate st kw = false.
Proof.
  intros st kw.
  assert (H : (minString CostPerClick st <> EmptyString /\
               parseBound CostPerClick (minString CostPerClick st) = NaN) \/
              (maxString CostPerClick st <> EmptyString /\
               parseBound CostPerClick (maxString CostPerClick st) = NaN)).
  { right. split; [discriminate | reflexivity]. }
  split; [exact H |].
  exact (unparsable_bound_rejects_every_record CostPerClick st kw H).
Defined.

(** C2, on the code.  The lower difficulty bound ".5" is present and
    [parseInt] does not parse it.  Were the bound treated as absent, or as
    zero, the record of difficulty 10 would pass, as it does once the bound
    is cleared or set to "0"; the filter compares with NaN and rejects the
    record.  The volume of a record is guarded against NaN by [|| 0]; the
    ten bounds are not. *)
Lemma unparsable_bound_is_not_absent :
  let st := withMin Difficulty ".5" initialFilterState in
  let kw := withKD 10 (keywordOf "seo tool") in
  minString Difficulty st = ".5" /\
  parseBound Difficulty ".5" = NaN /\
  rangePass Difficulty (withMin Difficulty "" st) kw = true /\
  evaluate (withMin Difficulty "" st) kw = true /\
  rangePass Difficulty (withMin Difficulty "0" st) kw = true /\
  rangePass Difficulty st kw = false /\
  evaluate st kw = false /\
  parseInt (removeCommas ".5") = None /\
  parsedVolume (mkKeyword "seo tool" "I" ".5" 10 0 0 "") = 0.
Proof.
  vm_compute. repeat split; reflexivity.
Qed.

(** ** Word count *)

Lemma splitScan_length_cur (r : bool) (cur cur' s : string) :
  List.length (splitScan r cur s) = List.length (splitScan r cur' s).
Proof.
  revert r cur cur'; induction s as [|c s IH]; intros r cur cur'; simpl.
  - reflexivity.
  - destruct (isWhiteSpace c).
    + destruct r; simpl; auto.
    + apply IH.
Qed.

Lemma trimEnd_fixed_tail (c : ascii) (s : string) :
  trimEnd (String c s) = String c s ->
  trimEnd s = s /\ (s = EmptyString -> isWhiteSpace c = false).
Proof.
  simpl. destruct (trimEnd s) as [|d r] eqn:E.
  - destruct (isWhiteSpace c); [discriminate |].
    intros H. injection H as <-. auto.
  - intros H. injection H as <-. split; [reflexivity | discriminate].
Qed.

(** On a string without trailing white space, the pieces of the split are
    the tokens, up to the piece that is being collected. *)
Lemma splitScan_tokens (s : string) :
  trimEnd s = s ->
  (forall cur, List.length (splitScan false cur s) = S (countTokens true s)) /\
  (s <> EmptyString ->
   forall cur, List.length (splitScan true cur s) = countTokens false s).
Proof.
  induction s as [|c s IH]; intros Hfix.
  - split; [reflexivity | congruence].
  - apply trimEnd_fixed_tail in Hfix. destruct Hfix as [Hs Hc].
    destruct (IH Hs) as [IH1 IH2]. cbn [splitScan countTokens].
    destruct (isWhiteSpace c) eqn:Ec.
    + assert (Hne : s <> EmptyString) by (intros ->; now specialize (Hc eq_refl)).
      split; intros; cbn [List.length]; now rewrite IH2.
    + split; intros; now rewrite IH1.
Qed.

Lemma trimEnd_idempotent (s : string) : trimEnd (trimEnd s) = trimEnd s.
Proof.
  induction s as [|c s IH]; simpl; [reflexivity |].
  destruct (trimEnd s) as [|d r] eqn:E.
  - destruct (isWhiteSpace c) eqn:Ec; simpl; [reflexivity | now rewrite Ec].
  - cbn [trimEnd] in *. now rewrite IH.
Qed.

Lemma trimStart_head (s : string) (c : ascii) (r : string) :
  trimStart s = String c r -> isWhiteSpace c = false.
Proof.
  induction s as [|a s IH]; simpl; [discriminate |].
  destruct (isWhiteSpace a) eqn:Ea; [exact IH |].
  intros H. injection H as <- _. exact Ea.
Qed.

Lemma trimEnd_head (c : ascii) (s : string) :
  isWhiteSpace c = false -> exists r, trimEnd (String c s) = String c r.
Proof.
  intros Hc. simpl. destruct (trimEnd s); rewrite ?Hc; eauto.
Qed.

Lemma trim_head (s : string) (c : ascii) (r : string) :
  trim s = String c r -> isWhiteSpace c = false.
Proof.
  unfold trim. destruct (trimStart s) as [|a t] eqn:E; [discriminate |].
  pose proof (trimStart_head _ _ _ E) as Ha.
  destruct (trimEnd_head a t Ha) as [r' ->].
  intros H. injection H as <- _. exact Ha.
Qed.

(** A keyword that holds a token: [getWordCount] counts its tokens. *)
Lemma getWordCount_tokens (s : string) :
  trim s <> EmptyString -> getWordCount s = countTokens false (trim s).
Proof.
  intros Hne. unfold getWordCount, splitWhiteSpace.
  assert (Hfix : trimEnd (trim s) = trim s) by apply trimEnd_idempotent.
  destruct (trim s) as [|c r] eqn:E; [congruence |].
  pose proof (trim_head _ _ _ E) as Hc.
  apply trimEnd_fixed_tail in Hfix. destruct Hfix as [Hr _].
  destruct (splitScan_tokens r Hr) as [H1 _].
  cbn [splitScan countTokens]. rewrite Hc. now rewrite H1.
Qed.

(** An empty or blank keyword: the split returns the one empty piece. *)
Lemma getWordCount_blank (s : string) :
  trim s = EmptyString ->
  getWordCount s = 1%nat /\ countTokens false (trim s) = 0%nat.
Proof.
  intros H. unfold getWordCount. rewrite H. split; reflexivity.
Qed.

(** C3, on the code.  [getWordCount] returns 1, not 0, for the empty
    keyword and for a keyword of white space only, although the trimmed
    keyword holds no token; on every other keyword it returns the number of
    tokens of the trimmed keyword. *)
Theorem getWordCount_of_blank_keyword_is_one :
  getWordCount "" = 1%nat /\
  countTokens false (trim "") = 0%nat /\
  getWordCount "   " = 1%nat /\
  countTokens false (trim "   ") = 0%nat /\
  getWordCount "best seo tool" = 3%nat /\
  rangePass WordCount (withMin WordCount "1" initialFilterState) (keywordOf "") = true /\
  (forall s, trim s <> EmptyString -> getWordCount s = countTokens false (trim s)) /\
  (forall s, trim s = EmptyString -> getWordCount s = 1%nat).
Proof.
  repeat (split; [reflexivity |]).
  split; [exact getWordCount_tokens |].
  intros s H. now apply getWordCount_blank.
Qed.

Lemma getWordCount_witness :
  trim "  long tail   keyword " <> EmptyString /\
  getWordCount "  long tail   keyword " = 3%nat.
Proof.
  split; [discriminate |].
  exact (proj1 (proj2 (proj2 (proj2 (proj2 (proj2 (proj2
           getWordCount_of_blank_keyword_is_one))))))
         "  long tail   keyword " ltac:(discriminate)).
Defined.

(** ** Aggregates *)

Lemma fold_left_sum (f : Keyword -> Z) (l : list Keyword) (acc : Z) :
  fold_left (fun sum item => sum + f item) l acc = acc + sumOf f l.
Proof.
  revert acc; induction l as [|k l IH]; intros acc; simpl.
  - lia.
  - rewrite IH. lia.
Qed.

Lemma totalVolume_sum (fk : list Keyword) :
  totalVolume fk = sumOf parsedVolume fk.
Proof.
  unfold totalVolume. cbv zeta. now rewrite fold_left_sum.
Qed.

Lemma Math_round_half_up (q : Q) : roundHalfUp q (Math_round q).
Proof.
  unfold roundHalfUp, Math_round.
  pose proof (Qfloor_le (q + (1 # 2))) as Hlo.
  pose proof (Qlt_floor (q + (1 # 2))) as Hhi.
  rewrite inject_Z_plus in Hhi.
  change (inject_Z 1) with 1%Q in Hhi.
  split; lra.
Qed.

Lemma roundHalfUp_unique (q : Q) (z z' : Z) :
  roundHalfUp q z -> roundHalfUp q z' -> z = z'.
Proof.
  intros [H1 H2] [H1' H2'].
  assert (Ha : (inject_Z z < inject_Z z' + 1)%Q) by lra.
  assert (Hb : (inject_Z z' < inject_Z z + 1)%Q) by lra.
  change 1%Q with (inject_Z 1) in Ha, Hb.
  rewrite <- inject_Z_plus in Ha, Hb.
  rewrite <- Zlt_Qlt in Ha, Hb. lia.
Qed.

Lemma averageKD_nonempty (fk : list Keyword) :
  fk <> [] ->
  averageKD fk =
  Math_round (inject_Z (sumOf kd fk) / inject_Z (Z.of_nat (List.length fk))).
Proof.
  intros Hne. unfold averageKD.
  destruct fk as [|k fk]; [congruence |].
  cbn [List.length Nat.ltb Nat.leb]. now rewrite fold_left_sum.
Qed.

(** C8. [totalVolume] is the sum of the parsed volumes of the filtered
    collection, a volume being read after its commas are removed and
    counting 0 when it does not parse; [averageKD] is the sum of the
    difficulties divided by the number of records, rounded to the nearest
    integer with a half rounding up; both are 0 on the empty collection,
    and the difficulties 10 and 15 give 13. *)
Theorem aggregates_semantics :
  (forall fk, totalVolume fk = sumOf parsedVolume fk) /\
  (forall k, parsedVolume k =
             match parseInt (removeCommas (volume k)) with
             | Some v => v
             | None => 0
             end) /\
  (forall fk z,
      fk <> [] ->
      (averageKD fk = z <->
       roundHalfUp (inject_Z (sumOf kd fk) / inject_Z (Z.of_nat (List.length fk))) z)) /\
  (totalVolume [] = 0 /\ averageKD [] = 0) /\
  averageKD [withKD 10 (keywordOf "seo tool"); withKD 15 (keywordOf "seo guide")] = 13 /\
  totalVolume [mkKeyword "seo tool" "I" "1,200" 10 0 0 "";
               mkKeyword "seo guide" "I" "n/a" 15 0 0 "";
               mkKeyword "seo" "I" "12,345,678" 15 0 0 ""] = 12346878.
Proof.
  split; [exact totalVolume_sum |].
  split; [reflexivity |].
  split; [| repeat split; reflexivity].
  intros fk z Hne. rewrite (averageKD_nonempty fk Hne). split.
  - intros <-. apply Math_round_half_up.
  - intros H. eapply roundHalfUp_unique; [apply Math_round_half_up | exact H].
Qed.

Lemma aggregates_witness :
  let fk := [withKD 10 (keywordOf "seo tool"); withKD 15 (keywordOf "seo guide")] in
  fk <> [] /\
  roundHalfUp (inject_Z (sumOf kd fk) / inject_Z (Z.of_nat (List.length fk))) 13.
Proof.
  intros fk. split; [discriminate |].
  apply (proj1 (proj2 (proj2 aggregates_semantics)) fk 13); [discriminate | reflexivity].
Defined.

(** ** Sort *)

Section StableSort.

Context {A : Type}.
Variable cmp : A -> A -> Q.
Variable rank : A -> Q.
Hypothesis cmp_rank : forall a b, (cmp a b == rank a - rank b)%Q.

Lemma cmp_le_iff (a b : A) : Qle_bool (cmp a b) 0 = true <-> (rank a <= rank b)%Q.
Proof.
  rewrite Qle_bool_iff, cmp_rank. split; intros; lra.
Qed.

Lemma cmp_eq_iff (a b : A) : comparesEqual cmp a b = true <-> (rank a == rank b)%Q.
Proof.
  unfold comparesEqual. rewrite Qeq_bool_iff, cmp_rank. split; intros; lra.
Qed.

Lemma insertSorted_perm (x : A) (l : list A) :
  Permutation (x :: l) (insertSorted cmp x l).
Proof.
  induction l as [|y l IH]; simpl; [reflexivity |].
  destruct (Qle_bool (cmp x y) 0); [reflexivity |].
  rewrite perm_swap. now apply perm_skip.
Qed.

Lemma arraySort_perm (l : list A) : Permutation l (arraySort cmp l).
Proof.
  induction l as [|x l IH]; simpl; [reflexivity |].
  rewrite <- insertSorted_perm. now apply perm_skip.
Qed.

Lemma insertSorted_inOrder (x : A) (l : list A) :
  inOrder cmp l -> inOrder cmp (insertSorted cmp x l).
Proof.
  unfold inOrder. induction 1 as [|y l Hl IH Hy]; simpl.
  - repeat constructor.
  - destruct (Qle_bool (cmp x y) 0) eqn:E.
    + constructor; [now constructor |].
      apply cmp_le_iff in E. constructor.
      * apply Qle_bool_iff. now apply cmp_le_iff.
      * rewrite Forall_forall in *. intros z Hz.
        specialize (Hy z Hz).
        apply Qle_bool_iff, cmp_le_iff in Hy.
        apply Qle_bool_iff, cmp_le_iff. lra.
    + constructor; [exact IH |].
      assert (Hyx : (rank y <= rank x)%Q).
      { destruct (Qlt_le_dec (rank x) (rank y)) as [Hlt | Hle]; [| exact Hle].
        assert (Hc : Qle_bool (cmp x y) 0 = true) by (apply cmp_le_iff; lra).
        congruence. }
      rewrite Forall_forall in *. intros z Hz.
      apply (Permutation_in _ (Permutation_sym (insertSorted_perm x l))) in Hz.
      destruct Hz as [<- | Hz].
      * apply Qle_bool_iff. now apply cmp_le_iff.
      * now apply Hy.
Qed.

Lemma arraySort_inOrder (l : list A) : inOrder cmp (arraySort cmp l).
Proof.
  induction l as [|x l IH]; simpl.
  - constructor.
  - now apply insertSorted_inOrder.
Qed.

(** Inserting [x] does not change the order of the elements that share
    a rank: [x] only moves behind elements of smaller rank. *)
Lemma insertSorted_stable (a x : A) (l : list A) :
  filter (comparesEqual cmp a) (insertSorted cmp x l) =
  filter (comparesEqual cmp a) (x :: l).
Proof.
  induction l as [|y l IH]; [reflexivity |].
  cbn [insertSorted]. destruct (Qle_bool (cmp x y) 0) eqn:E; [reflexivity |].
  cbn [filter] in *. rewrite IH.
  destruct (comparesEqual cmp a x) eqn:Ex; [| reflexivity].
  destruct (comparesEqual cmp a y) eqn:Ey; [| reflexivity].
  apply cmp_eq_iff in Ex. apply cmp_eq_iff in Ey.
  assert (Hc : Qle_bool (cmp x y) 0 = true) by (apply cmp_le_iff; lra).
  congruence.
Qed.

Lemma arraySort_stable (a : A) (l : list A) :
  filter (comparesEqual cmp a) (arraySort cmp l) = filter (comparesEqual cmp a) l.
Proof.
  induction l as [|x l IH]; [reflexivity |].
  cbn [arraySort]. rewrite insertSorted_stable. cbn [filter]. now rewrite IH.
Qed.

End StableSort.

Lemma arraySort_all_equal {A : Type} (cmp : A -> A -> Q) (l : list A) :
  (forall a b, (cmp a b == 0)%Q) -> arraySort cmp l = l.
Proof.
  intros H. induction l as [|x l IH]; simpl; [reflexivity |].
  rewrite IH. destruct l as [|y l]; simpl; [reflexivity |].
  assert (Hc : Qle_bool (cmp x y) 0 = true).
  { apply Qle_bool_iff. rewrite H. apply Qle_refl. }
  now rewrite Hc.
Qed.

Lemma compareKeywords_rank (ss : SortState) (a b : Keyword) :
  (compareKeywords ss a b == sortRank ss a - sortRank ss b)%Q.
Proof.
  unfold compareKeywords, sortRank.
  destruct (sortField ss) as [f|]; [| lra].
  assert (H : (match f with
               | SortVolume => inject_Z (parsedVolume a - parsedVolume b)
               | _ => fieldValue f a - fieldValue f b
               end == fieldValue f a - fieldValue f b)%Q).
  { destruct f; try reflexivity. simpl.
    unfold Z.sub. rewrite inject_Z_plus, inject_Z_opp. reflexivity. }
  cbv zeta. destruct (sortDirection ss); rewrite H; lra.
Qed.

(** C9. Without a sort column the comparator returns 0 for every pair and
    the sorted collection is the filtered collection.  With a column, the
    ascending comparator is the difference of the two records' values in
    that column: the parsed volumes, the difficulties, the costs per click
    or the traffic potentials, the volume being the number that the filter
    compares; the descending comparator is its negation.  The sort is
    stable: the result is a rearrangement of the filtered collection in
    which no record precedes one that the comparator ranks before it, and
    the records that compare equal keep the order they have in the filtered
    collection. *)
Theorem sort_comparator_semantics :
  (forall ss a b, sortField ss = None -> compareKeywords ss a b = 0%Q) /\
  (forall ss fk, sortField ss = None -> sortedKeywords ss fk = fk) /\
  (forall f a b,
      (compareKeywords (mkSortState (Some f) asc) a b
       == fieldValue f a - fieldValue f b)%Q) /\
  (forall a b,
      (compareKeywords (mkSortState (Some SortVolume) asc) a b
       == inject_Z (parsedVolume a) - inject_Z (parsedVolume b))%Q /\
      (compareKeywords (mkSortState (Some SortKD) asc) a b
       == inject_Z (kd a) - inject_Z (kd b))%Q /\
      (compareKeywords (mkSortState (Some SortCPC) asc) a b
       == cpc a - cpc b)%Q /\
      (compareKeywords (mkSortState (Some SortTrafficPotential) asc) a b
       == inject_Z (trafficPotential a) - inject_Z (trafficPotential b))%Q) /\
  (forall k, fieldValue SortVolume k = dimValue Volume k /\
             fieldValue SortVolume k = inject_Z (parsedVolume k)) /\
  (forall f a b,
      compareKeywords (mkSortState (Some f) desc) a b
      = (- compareKeywords (mkSortState (Some f) asc) a b)%Q) /\
  (forall ss fk,
      Permutation fk (sortedKeywords ss fk) /\
      inOrder (compareKeywords ss) (sortedKeywords ss fk) /\
      forall a, filter (comparesEqual (compareKeywords ss) a) (sortedKeywords ss fk)
                = filter (comparesEqual (compareKeywords ss) a) fk) /\
  (let a := mkKeyword "a" "I" "100" 0 0 0 "" in
   let b := mkKeyword "b" "I" "2,000" 0 0 0 "" in
   let c := mkKeyword "c" "I" "100" 0 0 0 "" in
   sortedKeywords (mkSortState (Some SortVolume) asc) [a; b; c] = [a; c; b] /\
   sortedKeywords (mkSortState (Some SortVolume) desc) [a; b; c] = [b; a; c] /\
   sortedKeywords (mkSortState None desc) [a; b; c] = [a; b; c]) /\
  (let a := mkKeyword "a" "I" "5" 30 (3 # 2) 200 "" in
   let b := mkKeyword "b" "I" "5" 10 (5 # 2) 100 "" in
   let c := mkKeyword "c" "I" "5" 30 (1 # 2) 300 "" in
   sortedKeywords (mkSortState (Some SortKD) asc) [a; b; c] = [b; a; c] /\
   sortedKeywords (mkSortState (Some SortKD) desc) [a; b; c] = [a; c; b] /\
   sortedKeywords (mkSortState (Some SortCPC) asc) [a; b; c] = [c; a; b] /\
   sortedKeywords (mkSortState (Some SortCPC) desc) [a; b; c] = [b; a; c] /\
   sortedKeywords (mkSortState (Some SortTrafficPotential) asc) [a; b; c] = [b; a; c] /\
   sortedKeywords (mkSortState (Some SortTrafficPotential) desc) [a; b; c] = [c; a; b] /\
   sortedKeywords (mkSortState (Some SortVolume) desc) [a; b; c] = [a; b; c]).
Proof.
  split; [intros ss a b H; unfold compareKeywords; now rewrite H |].
  split.
  { intros ss fk H. unfold sortedKeywords. apply arraySort_all_equal.
    intros a b. unfold compareKeywords. rewrite H. reflexivity. }
  split.
  { intros f a b. rewrite compareKeywords_rank. unfold sortRank; simpl. reflexivity. }
  split.
  { intros a b. repeat split; rewrite compareKeywords_rank; reflexivity. }
  split; [intros k; split; reflexivity |].
  split; [intros f a b; reflexivity |].
  split; [| split; vm_compute; auto 10].
  intros ss fk. unfold sortedKeywords. split; [| split].
  - apply arraySort_perm.
  - apply (arraySort_inOrder _ (sortRank ss) (compareKeywords_rank ss)).
  - intros a.
    apply (arraySort_stable _ (sortRank ss) (compareKeywords_rank ss)).
Qed.

Lemma sort_comparator_witness :
  let ss := mkSortState None desc in
  let a := mkKeyword "a" "I" "5" 30 (3 # 2) 200 "" in
  let b := mkKeyword "b" "I" "5" 10 (5 # 2) 100 "" in
  let c := mkKeyword "c" "I" "5" 30 (1 # 2) 300 "" in
  sortField ss = None /\
  sortedKeywords ss [a; b; c] = [a; b; c] /\
  sortedKeywords (mkSortState (Some SortKD) asc) [a; b; c] = [b; a; c] /\
  sortedKeywords (mkSortState (Some SortCPC) desc) [a; b; c] = [b; a; c] /\
  sortedKeywords (mkSortState (Some SortTrafficPotential) asc) [a; b; c] = [b; a; c].
Proof.
  intros ss a b c. split; [reflexivity |].
  split; [exact (proj1 (proj2 sort_comparator_semantics) ss [a; b; c] eq_refl) |].
  destruct sort_comparator_semantics
    as [_ [_ [_ [_ [_ [_ [_ [_ [H1 [_ [_ [H4 [H5 _]]]]]]]]]]]]].
  repeat split; assumption.
Defined.

(** * Further properties of the handlers and of the pipeline *)

(** ** Sorting *)

Lemma arraySort_fixed {A : Type} (cmp : A -> A -> Q) (l : list A) :
  inOrder cmp l -> arraySort cmp l = l.
Proof.
  unfold inOrder. induction 1 as [|x l Hl IH Hx]; [reflexivity |].
  cbn [arraySort]. rewrite IH.
  destruct l as [|y l]; [reflexivity |].
  cbn [insertSorted]. inversion Hx as [|? ? Hxy _]; subst.
  apply Qle_bool_iff in Hxy. now rewrite Hxy.
Qed.

Lemma inOrder_by_rank (ss : SortState) (l : list Keyword) :
  inOrder (compareKeywords ss) l <->
  StronglySorted (fun a b => (sortRank ss a <= sortRank ss b)%Q) l.
Proof.
  unfold inOrder. split; induction 1 as [|x l Hl IH Hx]; constructor; auto;
    rewrite Forall_forall in *; intros y Hy; specialize (Hx y Hy);
    pose proof (compareKeywords_rank ss x y) as Hc; lra.
Qed.

(** Sorting rows that are already sorted leaves them as they are: a second
    render with the same sort state shows the same table. *)
Theorem sortedKeywords_idempotent (ss : SortState) (fk : list Keyword) :
  sortedKeywords ss (sortedKeywords ss fk) = sortedKeywords ss fk.
Proof.
  unfold sortedKeywords. apply arraySort_fixed.
  apply (arraySort_inOrder _ (sortRank ss) (compareKeywords_rank ss)).
Qed.

Lemma sortFieldEqb_eq (f g : SortField) : sortFieldEqb f g = true <-> f = g.
Proof. destruct f, g; simpl; split; congruence. Qed.

Lemma sortFieldEqb_refl (f : SortField) : sortFieldEqb f f = true.
Proof. now destruct f. Qed.

Lemma handleSort_field (ss : SortState) (f : SortField) :
  sortField (handleSort ss f) = Some f.
Proof.
  unfold handleSort. destruct (sortField ss) as [g|] eqn:E; [| reflexivity].
  destruct (sortFieldEqb g f) eqn:Eg; [| reflexivity].
  apply sortFieldEqb_eq in Eg. cbn [sortField]. congruence.
Qed.

(** A click on a column header always makes that column the sort column.
    The first click on a column sorts it in descending order, whatever the
    direction was before; further clicks on the same column alternate the
    direction, so that two more clicks restore the state. *)
Theorem handleSort_cycle (ss : SortState) (f : SortField) :
  sortField (handleSort ss f) = Some f /\
  (sortField ss <> Some f -> sortDirection (handleSort ss f) = desc) /\
  handleSort (handleSort ss f) f = mkSortState (Some f)
    (match sortDirection (handleSort ss f) with asc => desc | desc => asc end) /\
  handleSort (handleSort (handleSort ss f) f) f = handleSort ss f.
Proof.
  unfold handleSort.
  destruct ss as [[g|] dir]; cbn [sortField sortDirection].
  - destruct (sortFieldEqb g f) eqn:E; cbn [sortField sortDirection].
    + apply sortFieldEqb_eq in E. subst g. rewrite sortFieldEqb_refl.
      cbn [sortField sortDirection]. rewrite sortFieldEqb_refl.
      repeat split; try congruence; destruct dir; reflexivity.
    + rewrite sortFieldEqb_refl. cbn [sortField sortDirection].
      rewrite sortFieldEqb_refl. repeat split; reflexivity.
  - rewrite sortFieldEqb_refl. cbn [sortField sortDirection].
    rewrite sortFieldEqb_refl. repeat split; reflexivity.
Qed.

Lemma handleSort_cycle_witness :
  sortField (mkSortState (Some SortKD) asc) <> Some SortCPC /\
  sortDirection (handleSort (mkSortState (Some SortKD) asc) SortCPC) = desc.
Proof.
  split; [discriminate |].
  apply (proj1 (proj2 (handleSort_cycle (mkSortState (Some SortKD) asc) SortCPC))).
  discriminate.
Defined.

(** A second click on the sort column negates the comparator for every
    pair of records. *)
Theorem handleSort_negates_comparator
    (ss : SortState) (f : SortField) (a b : Keyword) :
  sortField ss = Some f ->
  (compareKeywords (handleSort ss f) a b == - compareKeywords ss a b)%Q.
Proof.
  intros H. unfold handleSort, compareKeywords. rewrite H, sortFieldEqb_refl.
  cbn [sortField sortDirection].
  destruct (sortDirection ss); [reflexivity |].
  symmetry. apply Qopp_involutive.
Qed.

Lemma handleSort_negates_witness :
  let ss := mkSortState (Some SortKD) desc in
  let a := withKD 30 (keywordOf "a") in
  let b := withKD 10 (keywordOf "b") in
  sortField ss = Some SortKD /\
  (compareKeywords (handleSort ss SortKD) a b == - compareKeywords ss a b)%Q.
Proof.
  intros ss a b. split; [reflexivity |].
  exact (handleSort_negates_comparator ss SortKD a b eq_refl).
Defined.

Lemma StronglySorted_weaken {A : Type} (R R' : A -> A -> Prop) (l : list A) :
  (forall a b, R a b -> R' a b) -> StronglySorted R l -> StronglySorted R' l.
Proof.
  intros HR. induction 1 as [|x l _ IH Hx]; constructor; [exact IH |].
  eapply Forall_impl; [| exact Hx]. intros y. apply HR.
Qed.

Lemma StronglySorted_snoc {A : Type} (R : A -> A -> Prop) (l : list A) (x : A) :
  StronglySorted R l -> Forall (fun y => R y x) l -> StronglySorted R (l ++ [x]).
Proof.
  induction 1 as [|y l Hl IH Hy]; intros Hx; simpl.
  - repeat constructor.
  - inversion Hx as [|? ? Hyx Hlx]; subst. constructor; [now apply IH |].
    apply Forall_app. split; [exact Hy | now constructor].
Qed.

Lemma StronglySorted_rev {A : Type} (R : A -> A -> Prop) (l : list A) :
  StronglySorted R l -> StronglySorted (fun a b => R b a) (rev l).
Proof.
  induction 1 as [|x l _ IH Hx]; simpl; [constructor |].
  apply StronglySorted_snoc; [exact IH |]. now apply Forall_rev.
Qed.

(** Two arrangements of the same elements that are both ordered by a rank
    are the same list, when elements of equal rank are equal. *)
Lemma sorted_arrangement_unique {A : Type} (rank : A -> Q) (l l' : list A) :
  Permutation l l' ->
  StronglySorted (fun a b => (rank a <= rank b)%Q) l ->
  StronglySorted (fun a b => (rank a <= rank b)%Q) l' ->
  (forall a b, In a l -> In b l -> (rank a == rank b)%Q -> a = b) ->
  l = l'.
Proof.
  revert l'. induction l as [|x t IH]; intros l' Hp Hs Hs' Hinj.
  - apply Permutation_nil in Hp. now subst.
  - destruct l' as [|y t'].
    + apply Permutation_sym, Permutation_nil in Hp. discriminate.
    + inversion Hs as [|? ? Hst Hxt]; subst.
      inversion Hs' as [|? ? Hst' Hyt']; subst.
      assert (Hxy : x = y).
      { assert (Hx : In x (y :: t')) by (eapply Permutation_in; [exact Hp | now left]).
        assert (Hy : In y (x :: t))
          by (eapply Permutation_in; [apply Permutation_sym; exact Hp | now left]).
        destruct Hx as [Hx | Hx]; [now subst |].
        destruct Hy as [Hy | Hy]; [now subst |].
        rewrite Forall_forall in Hxt, Hyt'.
        pose proof (Hxt y Hy) as H1. pose proof (Hyt' x Hx) as H2.
        apply Hinj; [now left | now right | lra]. }
      subst y. f_equal. apply IH; auto.
      * now apply Permutation_cons_inv in Hp.
      * intros a b Ha Hb. apply Hinj; now right.
Qed.

Lemma sortRank_toggle (ss : SortState) (f : SortField) (k : Keyword) :
  sortField ss = Some f ->
  (sortRank (handleSort ss f) k == - sortRank ss k)%Q.
Proof.
  intros H. unfold handleSort, sortRank. rewrite H, sortFieldEqb_refl.
  cbn [sortField sortDirection].
  destruct (sortDirection ss); [reflexivity |].
  symmetry. apply Qopp_involutive.
Qed.

Lemma sortRank_field (ss : SortState) (f : SortField) (a b : Keyword) :
  sortField ss = Some f ->
  ((sortRank ss a == sortRank ss b)%Q <-> (fieldValue f a == fieldValue f b)%Q).
Proof.
  intros H. unfold sortRank. rewrite H.
  destruct (sortDirection ss); split; intros; lra.
Qed.

(** When no two records share their value in the sort column, a second
    click on that column shows the same rows in the reverse order. *)
Theorem handleSort_reverses_table
    (ss : SortState) (f : SortField) (fk : list Keyword) :
  sortField ss = Some f ->
  noTies f fk ->
  sortedKeywords (handleSort ss f) fk = rev (sortedKeywords ss fk).
Proof.
  intros Hf Hties.
  set (ss' := handleSort ss f).
  assert (Hf' : sortField ss' = Some f) by apply handleSort_field.
  pose proof (arraySort_perm (compareKeywords ss') fk) as Hp'.
  pose proof (arraySort_perm (compareKeywords ss) fk) as Hp.
  pose proof (arraySort_inOrder _ (sortRank ss') (compareKeywords_rank ss') fk) as Hs'.
  pose proof (arraySort_inOrder _ (sortRank ss) (compareKeywords_rank ss) fk) as Hs.
  apply inOrder_by_rank in Hs, Hs'.
  unfold sortedKeywords.
  apply (sorted_arrangement_unique (sortRank ss')).
  - rewrite <- Hp', <- Permutation_rev. exact Hp.
  - exact Hs'.
  - apply StronglySorted_rev in Hs.
    eapply StronglySorted_weaken; [| exact Hs].
    intros a b Hab. cbv beta in Hab.
    pose proof (sortRank_toggle ss f a Hf) as Ha.
    pose proof (sortRank_toggle ss f b Hf) as Hb.
    fold ss' in Ha, Hb. lra.
  - intros a b Ha Hb Hab.
    apply (Permutation_in _ (Permutation_sym Hp')) in Ha.
    apply (Permutation_in _ (Permutation_sym Hp')) in Hb.
    apply Hties; auto. now apply (sortRank_field ss' f a b Hf').
Qed.

Lemma handleSort_reverses_witness :
  let ss := mkSortState (Some SortKD) desc in
  let fk := [withKD 20 (keywordOf "a"); withKD 40 (keywordOf "b");
             withKD 30 (keywordOf "c")] in
  sortField ss = Some SortKD /\
  noTies SortKD fk /\
  sortedKeywords (handleSort ss SortKD) fk = rev (sortedKeywords ss fk).
Proof.
  intros ss fk.
  assert (Hties : noTies SortKD fk).
  { intros a b Ha Hb. simpl in Ha, Hb.
    repeat (destruct Ha as [<- | Ha]; [| try contradiction]);
      repeat (destruct Hb as [<- | Hb]; [| try contradiction]);
      try reflexivity; intros H; vm_compute in H; discriminate H. }
  split; [reflexivity |]. split; [exact Hties |].
  exact (handleSort_reverses_table ss SortKD fk eq_refl Hties).
Defined.

(** The arrow in a column header tells how the table is ordered: a column
    shows an arrow exactly when it is the sort column; under an up arrow
    every row has at most the value of the rows below it in that column
    (parsed volume, difficulty, cost per click or traffic potential), under
    a down arrow at least that value. *)
Theorem getSortIcon_agrees_with_order
    (ss : SortState) (f : SortField) (fk : list Keyword) :
  (getSortIcon ss f <> IconBoth <-> sortField ss = Some f) /\
  (getSortIcon ss f = IconUp -> ascendingColumn f (sortedKeywords ss fk)) /\
  (getSortIcon ss f = IconDown -> descendingColumn f (sortedKeywords ss fk)).
Proof.
  pose proof (arraySort_inOrder _ (sortRank ss) (compareKeywords_rank ss) fk) as Hs.
  apply inOrder_by_rank in Hs. fold (sortedKeywords ss fk) in Hs.
  unfold getSortIcon, sortRank in *.
  destruct (sortField ss) as [g|].
  - destruct (sortFieldEqb g f) eqn:E.
    + apply sortFieldEqb_eq in E. subst g.
      destruct (sortDirection ss).
      * split; [split; congruence |]. split; [intros _ | discriminate].
        destruct f; cbn [ascendingColumn fieldValue] in *;
          (eapply StronglySorted_weaken; [| exact Hs]); cbv beta;
          intros a b Hab; try exact Hab; rewrite Zle_Qle; exact Hab.
      * split; [split; congruence |]. split; [discriminate | intros _].
        destruct f; cbn [descendingColumn fieldValue] in *;
          (eapply StronglySorted_weaken; [| exact Hs]); cbv beta;
          intros a b Hab; rewrite ?Zle_Qle; lra.
    + split; [| split; discriminate]. split; [congruence |].
      intros H. injection H as ->. now rewrite sortFieldEqb_refl in E.
  - split; [| split; discriminate]. split; congruence.
Qed.

Lemma getSortIcon_witness :
  let ss := handleSort (handleSort (mkSortState None desc) SortKD) SortKD in
  let fk := [mkKeyword "a" "I" "100" 30 (3 # 2) 200 "";
             mkKeyword "b" "I" "2,000" 10 (5 # 2) 100 "";
             mkKeyword "c" "I" "100" 20 (1 # 2) 300 ""] in
  getSortIcon ss SortKD = IconUp /\
  ascendingColumn SortKD (sortedKeywords ss fk) /\
  getSortIcon (handleSort ss SortCPC) SortCPC = IconDown /\
  descendingColumn SortCPC (sortedKeywords (handleSort ss SortCPC) fk).
Proof.
  intros ss fk. split; [reflexivity |]. split.
  - apply (proj1 (proj2 (getSortIcon_agrees_with_order ss SortKD fk))).
    reflexivity.
  - split; [reflexivity |].
    apply (proj2 (proj2 (getSortIcon_agrees_with_order
                           (handleSort ss SortCPC) SortCPC fk))).
    reflexivity.
Defined.

(** ** Statistics *)

Lemma sumOf_permutation (f : Keyword -> Z) (l l' : list Keyword) :
  Permutation l l' -> sumOf f l = sumOf f l'.
Proof.
  induction 1; simpl; lia.
Qed.

Lemma averageKD_sum (fk : list Keyword) :
  averageKD fk =
  if (0 <? List.length fk)%nat
  then Math_round (inject_Z (sumOf kd fk) / inject_Z (Z.of_nat (List.length fk)))
  else 0.
Proof.
  unfold averageKD. now rewrite fold_left_sum.
Qed.

(** The statistics describe the rows of the table: the rows are the
    records that pass the filter, each as often as it occurs, and the count,
    the total volume and the average difficulty computed from the rows, in
    the order shown, are the numbers of the statistics bar. *)
Theorem render_statistics_match_rows
    (st : FilterState) (ss : SortState) (ks : list Keyword) :
  let '(rows, total, average) := render st ss ks in
  Permutation (filteredKeywords st ks) rows /\
  (forall k, In k rows <-> In k ks /\ evaluate st k = true) /\
  List.length rows = List.length (filteredKeywords st ks) /\
  totalVolume rows = total /\
  averageKD rows = average.
Proof.
  unfold render. cbv zeta.
  pose proof (arraySort_perm (compareKeywords ss) (filteredKeywords st ks)) as Hp.
  fold (sortedKeywords ss (filteredKeywords st ks)) in Hp.
  split; [exact Hp |]. split; [| split; [| split]].
  - intros k. unfold filteredKeywords at 1. rewrite <- filter_In.
    fold (filteredKeywords st ks). split; apply Permutation_in; auto.
    now apply Permutation_sym.
  - symmetry. now apply Permutation_length.
  - rewrite !totalVolume_sum. symmetry. now apply sumOf_permutation.
  - rewrite !averageKD_sum.
    rewrite (Permutation_length Hp), (sumOf_permutation kd _ _ Hp). reflexivity.
Qed.

Lemma sumOf_bounds (f : Keyword -> Z) (lo hi : Z) (l : list Keyword) :
  (forall k, In k l -> lo <= f k <= hi) ->
  Z.of_nat (List.length l) * lo <= sumOf f l <= Z.of_nat (List.length l) * hi.
Proof.
  induction l as [|k l IH]; intros H.
  - simpl. lia.
  - cbn [sumOf fold_right List.length]. fold (sumOf f l).
    rewrite Nat2Z.inj_succ.
    assert (Hk : lo <= f k <= hi) by (apply H; now left).
    assert (Hl : Z.of_nat (List.length l) * lo <= sumOf f l
                 <= Z.of_nat (List.length l) * hi)
      by (apply IH; intros; apply H; now right).
    lia.
Qed.

(** The average difficulty lies between the smallest and the largest
    difficulty of the rows: if every difficulty is between [lo] and [hi],
    so is [averageKD]. *)
Theorem averageKD_within_bounds (fk : list Keyword) (lo hi : Z) :
  fk <> [] ->
  (forall k, In k fk -> lo <= kd k <= hi) ->
  lo <= averageKD fk <= hi.
Proof.
  intros Hne Hb.
  rewrite (averageKD_nonempty fk Hne).
  set (n := Z.of_nat (List.length fk)).
  set (s := sumOf kd fk).
  assert (Hn : 0 < n) by (destruct fk; [congruence | unfold n; simpl; lia]).
  pose proof (sumOf_bounds kd lo hi fk Hb) as Hs. fold n s in Hs.
  destruct (Math_round_half_up (inject_Z s / inject_Z n)) as [H1 H2].
  set (z := Math_round (inject_Z s / inject_Z n)) in *.
  assert (HnQ : (0 < inject_Z n)%Q) by (change 0%Q with (inject_Z 0); now rewrite <- Zlt_Qlt).
  assert (Hlo : (inject_Z lo <= inject_Z s / inject_Z n)%Q).
  { apply Qle_shift_div_l; [exact HnQ |].
    rewrite <- inject_Z_mult, <- Zle_Qle. lia. }
  assert (Hhi : (inject_Z s / inject_Z n <= inject_Z hi)%Q).
  { apply Qle_shift_div_r; [exact HnQ |].
    rewrite <- inject_Z_mult, <- Zle_Qle. lia. }
  assert (Ha : (inject_Z lo < inject_Z z + 1)%Q) by lra.
  assert (Hc : (inject_Z z < inject_Z hi + 1)%Q) by lra.
  change 1%Q with (inject_Z 1) in Ha, Hc.
  rewrite <- inject_Z_plus, <- Zlt_Qlt in Ha, Hc. lia.
Qed.

Lemma averageKD_bounds_witness :
  let fk := [withKD 10 (keywordOf "a"); withKD 15 (keywordOf "b");
             withKD 100 (keywordOf "c")] in
  fk <> [] /\
  (forall k, In k fk -> 0 <= kd k <= 100) /\
  0 <= averageKD fk <= 100.
Proof.
  intros fk.
  assert (Hb : forall k, In k fk -> 0 <= kd k <= 100).
  { intros k Hk. simpl in Hk.
    repeat (destruct Hk as [<- | Hk]; [simpl; lia |]). contradiction. }
  split; [discriminate |]. split; [exact Hb |].
  apply (averageKD_within_bounds fk 0 100); [discriminate | exact Hb].
Defined.

(** When no record has a negative volume, a filter can only lower the
    total volume: the total of the filtered collection is between 0 and the
    total of the whole collection. *)
Theorem totalVolume_filtered_le (st : FilterState) (ks : list Keyword) :
  (forall k, In k ks -> 0 <= parsedVolume k) ->
  0 <= totalVolume (filteredKeywords st ks) <= totalVolume ks.
Proof.
  intros H. rewrite !totalVolume_sum. unfold filteredKeywords.
  induction ks as [|k ks IH]; simpl; [lia |].
  assert (Hk : 0 <= parsedVolume k) by (apply H; now left).
  assert (Hks : 0 <= sumOf parsedVolume (filter (evaluate st) ks)
                <= sumOf parsedVolume ks) by (apply IH; intros; apply H; now right).
  destruct (evaluate st k); simpl; lia.
Qed.

Lemma totalVolume_filtered_witness :
  let st := withMin Volume "1000" initialFilterState in
  let ks := [mkKeyword "a" "I" "100" 0 0 0 ""; mkKeyword "b" "I" "2,000" 0 0 0 ""] in
  (forall k, In k ks -> 0 <= parsedVolume k) /\
  0 <= totalVolume (filteredKeywords st ks) <= totalVolume ks.
Proof.
  intros st ks.
  assert (H : forall k, In k ks -> 0 <= parsedVolume k).
  { intros k Hk. simpl in Hk.
    repeat (destruct Hk as [<- | Hk]; [vm_compute; discriminate |]). contradiction. }
  split; [exact H |]. exact (totalVolume_filtered_le st ks H).
Defined.

(** ** Range panels *)

Lemma notEmpty_false (s : string) : notEmpty s = false <-> s = EmptyString.
Proof.
  unfold notEmpty. rewrite negb_false_iff. apply String.eqb_eq.
Qed.

Lemma isRangeFilterActive_false (d : RangeDimension) (st : FilterState) :
  isRangeFilterActive d st = false <->
  minString d st = EmptyString /\ maxString d st = EmptyString.
Proof.
  destruct d; simpl;
    unfold isVolumeFilterActive, isKDFilterActive, isCPCFilterActive,
      isWordCountFilterActive, isTrafficPotentialFilterActive;
    now rewrite orb_false_iff, !notEmpty_false.
Qed.

(** A range filter whose button is not highlighted does not filter: when
    [isVolumeFilterActive] (and likewise for the four other ranges) is
    false, every record passes that dimension, and the filter keeps a
    record exactly when it is within the four other ranges and passes the
    intent, the include and the exclude dimension. *)
Theorem inactive_range_passes_every_record
    (d : RangeDimension) (st : FilterState) (kw : Keyword) :
  isRangeFilterActive d st = false ->
  rangePass d st kw = true /\
  (evaluate st kw = true <->
   (forall d', d' <> d -> inRange d' st kw) /\
   intentMatch st kw = true /\ includeMatch st kw = true /\
   excludeMatch st kw = true).
Proof.
  intros H. apply isRangeFilterActive_false in H. destruct H as [Hmin Hmax].
  assert (Hd : rangePass d st kw = true) by now apply rangePass_unset.
  split; [exact Hd |].
  rewrite evaluate_true_iff. split; intros [Hr Hrest]; (split; [| exact Hrest]).
  - intros d' _. apply rangePass_spec, Hr.
  - intros d'. destruct d, d'; try exact Hd;
      (apply rangePass_spec, Hr; discriminate).
Qed.

Lemma inactive_range_witness :
  isRangeFilterActive Difficulty (withMin Volume "10" initialFilterState) = false /\
  rangePass Difficulty (withMin Volume "10" initialFilterState)
    (withKD (-7) (keywordOf "seo")) = true.
Proof.
  split; [reflexivity |].
  now apply (inactive_range_passes_every_record Difficulty).
Defined.

Lemma clearRange_strings (d d' : RangeDimension) (st : FilterState) :
  (d = d' -> minString d' (clearRange d st) = EmptyString /\
             maxString d' (clearRange d st) = EmptyString) /\
  (d <> d' -> minString d' (clearRange d st) = minString d' st /\
              maxString d' (clearRange d st) = maxString d' st).
Proof.
  destruct d, d'; split; intros H; try congruence; split; reflexivity.
Qed.

Lemma rangePass_strings (d : RangeDimension) (st st' : FilterState) (kw : Keyword) :
  minString d st' = minString d st -> maxString d st' = maxString d st ->
  rangePass d st' kw = rangePass d st kw.
Proof.
  unfold rangePass, dimMin, dimMax. now intros -> ->.
Qed.

(** The Clear button of a range panel switches that filter off, leaves
    the other filters as they are and never hides a record: every record
    that was visible stays visible. *)
Theorem clearRange_only_widens (d : RangeDimension) (st : FilterState) :
  isRangeFilterActive d (clearRange d st) = false /\
  (forall d' kw, d' <> d -> rangePass d' (clearRange d st) kw = rangePass d' st kw) /\
  (forall kw, evaluate st kw = true -> evaluate (clearRange d st) kw = true) /\
  (forall ks k, In k (filteredKeywords st ks) ->
                In k (filteredKeywords (clearRange d st) ks)).
Proof.
  assert (Hoff : isRangeFilterActive d (clearRange d st) = false).
  { apply isRangeFilterActive_false. now apply (clearRange_strings d d st). }
  assert (Hother : forall d' kw, d' <> d ->
            rangePass d' (clearRange d st) kw = rangePass d' st kw).
  { intros d' kw Hd.
    destruct (proj2 (clearRange_strings d d' st)) as [Hmin Hmax]; [congruence |].
    now apply rangePass_strings. }
  assert (Hev : forall kw, evaluate st kw = true -> evaluate (clearRange d st) kw = true).
  { intros kw H. apply evaluate_true_iff in H.
    destruct H as [Hr [Hi [Hin Hex]]]. apply evaluate_true_iff.
    split; [| now destruct d].
    intros d'. destruct d, d';
      try (apply rangePass_unset; reflexivity);
      (rewrite Hother; [apply Hr | discriminate]). }
  repeat split; auto.
  intros ks k. unfold filteredKeywords. rewrite !filter_In. intuition.
Qed.

Lemma clearRange_witness :
  let st := withMin Volume "1000" (withMin Difficulty "20" initialFilterState) in
  let kw := mkKeyword "seo tool" "I" "2,500" 40 (5 # 4) 900 "seo" in
  evaluate st kw = true /\ evaluate (clearRange Volume st) kw = true.
Proof.
  intros st kw. split; [reflexivity |].
  apply (proj1 (proj2 (proj2 (clearRange_only_widens Volume st))) kw).
  reflexivity.
Defined.

(** A range whose lower bound is larger than its upper bound hides every
    record. *)
Theorem crossed_bounds_reject_every_record
    (d : RangeDimension) (st : FilterState) (kw : Keyword) (lo hi : Q) :
  toExtended (dimMin d st) = Some (Real lo) ->
  toExtended (dimMax d st) = Some (Real hi) ->
  (hi < lo)%Q ->
  rangePass d st kw = false /\ evaluate st kw = false.
Proof.
  intros Hlo Hhi Hlt.
  assert (Hr : rangePass d st kw = false).
  { destruct (rangePass d st kw) eqn:E; [| reflexivity].
    apply rangePass_spec in E.
    destruct E as [lo' [hi' [Hlo' [Hhi' [H1 H2]]]]].
    rewrite Hlo in Hlo'. rewrite Hhi in Hhi'.
    injection Hlo' as <-. injection Hhi' as <-. simpl in H1, H2. lra. }
  split; [exact Hr |].
  destruct (evaluate st kw) eqn:E; [| reflexivity].
  apply evaluate_true_iff in E. destruct E as [E _]. specialize (E d). congruence.
Qed.

Lemma crossed_bounds_witness :
  let st := withMax CostPerClick "0.5" (withMin CostPerClick "1.25" initialFilterState) in
  let kw := mkKeyword "seo tool" "I" "2,500" 40 (3 # 4) 900 "seo" in
  toExtended (dimMin CostPerClick st) = Some (Real (5 # 4)) /\
  toExtended (dimMax CostPerClick st) = Some (Real (1 # 2)) /\
  ((1 # 2) < (5 # 4))%Q /\
  rangePass CostPerClick st kw = false /\ evaluate st kw = false /\
  evaluate (withMax CostPerClick "0.5"
              (withMin CostPerClick "0.50000000000000001" initialFilterState))
    (mkKeyword "seo tool" "I" "2,500" 40 (1 # 2) 900 "seo") = true.
Proof.
  intros st kw.
  split; [reflexivity |]. split; [reflexivity |]. split; [reflexivity |].
  split; [| split; [| reflexivity]];
    apply (crossed_bounds_reject_every_record CostPerClick st kw (5 # 4) (1 # 2));
    reflexivity.
Defined.

(** ** Word count *)

Lemma splitScan_nonempty (r : bool) (cur s : string) :
  (1 <= List.length (splitScan r cur s))%nat.
Proof.
  revert r cur; induction s as [|c s IH]; intros r cur; simpl; [lia |].
  destruct (isWhiteSpace c); [destruct r |]; simpl; auto with arith.
Qed.

Lemma trimEnd_keeps_head (c : ascii) (s : string) :
  isWhiteSpace c = false -> trimStart (trimEnd (String c s)) = trimEnd (String c s).
Proof.
  intros Hc. destruct (trimEnd_head c s Hc) as [r ->]. simpl. now rewrite Hc.
Qed.

Lemma trim_idempotent (s : string) : trim (trim s) = trim s.
Proof.
  unfold trim. destruct (trimStart s) as [|c t] eqn:E; [reflexivity |].
  rewrite (trimEnd_keeps_head c t (trimStart_head _ _ _ E)).
  apply trimEnd_idempotent.
Qed.

(** [getWordCount] never returns 0 and does not depend on the white space
    around the keyword; so a word count filter with an upper bound below 1
    hides every record, the records with an empty keyword included. *)
Theorem getWordCount_at_least_one :
  (forall s, (1 <= getWordCount s)%nat) /\
  (forall s, getWordCount (trim s) = getWordCount s) /\
  (forall st kw q,
      toExtended (dimMax WordCount st) = Some (Real q) -> (q < 1)%Q ->
      evaluate st kw = false).
Proof.
  split; [intros s; apply splitScan_nonempty |].
  split; [intros s; unfold getWordCount; now rewrite trim_idempotent |].
  intros st kw q Hq Hlt.
  destruct (evaluate st kw) eqn:E; [| reflexivity].
  apply evaluate_true_iff in E. destruct E as [E _]. specialize (E WordCount).
  apply rangePass_spec in E.
  destruct E as [lo [hi [_ [Hhi [_ H]]]]].
  rewrite Hq in Hhi. injection Hhi as <-. simpl in H.
  assert (Hn : (1 <= getWordCount (keyword kw))%nat) by apply splitScan_nonempty.
  assert (HnQ : (inject_Z 1 <= inject_Z (Z.of_nat (getWordCount (keyword kw))))%Q)
    by (rewrite <- Zle_Qle; lia).
  change (inject_Z 1) with 1%Q in HnQ. lra.
Qed.

Lemma getWordCount_at_least_one_witness :
  let st := withMax WordCount "0" initialFilterState in
  toExtended (dimMax WordCount st) = Some (Real 0) /\ (0 < 1)%Q /\
  evaluate st (keywordOf "") = false.
Proof.
  intros st. split; [reflexivity |]. split; [reflexivity |].
  apply (proj2 (proj2 getWordCount_at_least_one) st (keywordOf "") 0%Q);
    reflexivity.
Defined.

(** ** Intent panel *)

Lemma intentEqDec (i j : Intent) : {i = j} + {i <> j}.
Proof. decide equality. Defined.

Lemma isSelected_handleIntentChange (st : FilterState) (i j : Intent) :
  isSelected (selectedIntents (handleIntentChange st i)) j =
  if intentEqDec i j then negb (isSelected (selectedIntents st) j)
  else isSelected (selectedIntents st) j.
Proof.
  destruct i, j; reflexivity.
Qed.

Lemma handleIntentChange_other_dimensions (st : FilterState) (i : Intent) (kw : Keyword) :
  (forall d, rangePass d (handleIntentChange st i) kw = rangePass d st kw) /\
  includeMatch (handleIntentChange st i) kw = includeMatch st kw /\
  excludeMatch (handleIntentChange st i) kw = excludeMatch st kw.
Proof.
  split; [intros d; now destruct d, i |]. split; now destruct i.
Qed.

(** A check box of the intent panel flips its own flag and no other part
    of the filter state: ticking it twice restores the state, and two check
    boxes can be ticked in either order. *)
Theorem handleIntentChange_toggles (st : FilterState) (i : Intent) :
  isSelected (selectedIntents (handleIntentChange st i)) i
  = negb (isSelected (selectedIntents st) i) /\
  (forall j, j <> i ->
     isSelected (selectedIntents (handleIntentChange st i)) j
     = isSelected (selectedIntents st) j) /\
  handleIntentChange (handleIntentChange st i) i = st /\
  (forall j, handleIntentChange (handleIntentChange st i) j
             = handleIntentChange (handleIntentChange st j) i) /\
  (forall d kw, rangePass d (handleIntentChange st i) kw = rangePass d st kw) /\
  (forall kw, includeMatch (handleIntentChange st i) kw = includeMatch st kw) /\
  (forall kw, excludeMatch (handleIntentChange st i) kw = excludeMatch st kw).
Proof.
  split; [now destruct i |].
  split; [intros j Hj; destruct i, j; congruence || reflexivity |].
  split.
  { destruct st as [? ? ? ? ? ? ? ? ? ? [a b c d] ? ?].
    destruct i; unfold handleIntentChange, withIntents; simpl;
      now rewrite negb_involutive. }
  split; [intros j; destruct i, j; reflexivity |].
  split; [intros d kw; now destruct d, i |].
  split; intros kw; now destruct i.
Qed.

Lemma handleIntentChange_witness :
  Transactional <> Informational /\
  isSelected (selectedIntents (handleIntentChange initialFilterState Informational))
    Transactional
  = isSelected (selectedIntents initialFilterState) Transactional.
Proof.
  split; [discriminate |].
  apply (proj1 (proj2 (handleIntentChange_toggles initialFilterState Informational))).
  discriminate.
Defined.

(** Intents combine by "or": once an intent is selected, selecting another
    one never hides a record that was visible.  The first selection, in
    contrast, restricts the table to the records whose intent string holds
    its letter. *)
Theorem selecting_an_intent (st : FilterState) (i : Intent) (kw : Keyword) :
  isSelected (selectedIntents st) i = false ->
  ((exists j, isSelected (selectedIntents st) j = true) ->
   (intentMatch st kw = true -> intentMatch (handleIntentChange st i) kw = true) /\
   (evaluate st kw = true -> evaluate (handleIntentChange st i) kw = true)) /\
  ((forall j, isSelected (selectedIntents st) j = false) ->
   (intentMatch (handleIntentChange st i) kw = true <->
    hasChar (intentCode i) (intent kw))).
Proof.
  intros Hi.
  assert (Hany' : anyIntentSelected (selectedIntents (handleIntentChange st i)) = true).
  { apply anyIntentSelected_true. exists i.
    rewrite isSelected_handleIntentChange.
    destruct (intentEqDec i i); [now rewrite Hi | congruence]. }
  split.
  - intros Hsome.
    assert (Hm : intentMatch st kw = true -> intentMatch (handleIntentChange st i) kw = true).
    { intros H. apply anyIntentSelected_true in Hsome.
      apply (intentMatch_selected st kw Hsome) in H. destruct H as [j [Hj Hc]].
      apply (intentMatch_selected _ kw Hany'). exists j. split; [| exact Hc].
      rewrite isSelected_handleIntentChange.
      destruct (intentEqDec i j); [congruence | exact Hj]. }
    split; [exact Hm |].
    intros H. apply evaluate_true_iff in H. destruct H as [Hr [Him [Hin Hex]]].
    apply evaluate_true_iff.
    destruct (handleIntentChange_other_dimensions st i kw) as [Er [Ein Eex]].
    repeat split; [intros d; rewrite Er; apply Hr | now apply Hm
                  | now rewrite Ein | now rewrite Eex].
  - intros Hnone. rewrite (intentMatch_selected _ kw Hany'). split.
    + intros [j [Hj Hc]]. rewrite isSelected_handleIntentChange in Hj.
      destruct (intentEqDec i j); [now subst | congruence].
    + intros Hc. exists i. split; [| exact Hc].
      rewrite isSelected_handleIntentChange.
      destruct (intentEqDec i i); [now rewrite Hi | congruence].
Qed.

Lemma selecting_an_intent_witness :
  let st := handleIntentChange initialFilterState Informational in
  let kw := withIntent "I,T" (keywordOf "buy seo tool") in
  isSelected (selectedIntents st) Commercial = false /\
  (exists j, isSelected (selectedIntents st) j = true) /\
  (evaluate st kw = true -> evaluate (handleIntentChange st Commercial) kw = true).
Proof.
  intros st kw.
  assert (Hsome : exists j, isSelected (selectedIntents st) j = true)
    by (exists Informational; reflexivity).
  split; [reflexivity |]. split; [exact Hsome |].
  exact (proj2 (proj1 (selecting_an_intent st Commercial kw eq_refl) Hsome)).
Defined.

(** The summary under the Intent button is absent exactly when no intent
    is selected; otherwise it lists the letters of the selected intents, and
    these are the letters that the filter looks for: a record passes the
    intent dimension exactly when its intent string holds one of the letters
    I, T, C, N that the summary shows. *)
Theorem getIntentFilterSummary_shows_filter_letters (st : FilterState) :
  (getIntentFilterSummary st = None <->
   forall i, isSelected (selectedIntents st) i = false) /\
  (forall s, getIntentFilterSummary st = Some s ->
     (forall i, isSelected (selectedIntents st) i = true <-> hasChar (intentCode i) s) /\
     (forall kw, intentMatch st kw = true <->
                 exists i, hasChar (intentCode i) s /\
                           hasChar (intentCode i) (intent kw))).
Proof.
  assert (Hletters : forall s, getIntentFilterSummary st = Some s ->
            forall i, isSelected (selectedIntents st) i = true <-> hasChar (intentCode i) s).
  { destruct st as [? ? ? ? ? ? ? ? ? ? [a b c d] ? ?].
    intros s Hs i.
    destruct a, b, c, d; vm_compute in Hs; try discriminate Hs;
      injection Hs as <-; destruct i; simpl; split; intros H;
      try discriminate H; try reflexivity;
      try (repeat (destruct H as [H | H]; [discriminate H |]); contradiction);
      repeat (first [left; reflexivity | right]). }
  assert (Hnone : getIntentFilterSummary st = None <->
                  anyIntentSelected (selectedIntents st) = false).
  { unfold getIntentFilterSummary, isIntentFilterActive.
    fold (anyIntentSelected (selectedIntents st)).
    destruct (anyIntentSelected (selectedIntents st)); simpl; split; congruence. }
  split; [now rewrite Hnone, anyIntentSelected_false |].
  intros s Hs. split; [now apply Hletters |].
  intros kw.
  assert (Hany : anyIntentSelected (selectedIntents st) = true).
  { destruct (anyIntentSelected (selectedIntents st)) eqn:E; [reflexivity |].
    rewrite (proj2 Hnone eq_refl) in Hs. discriminate Hs. }
  rewrite (intentMatch_selected st kw Hany).
  split; intros [i [H1 H2]]; exists i; split; auto; now apply (Hletters s Hs).
Qed.

Lemma getIntentFilterSummary_witness :
  let st := handleIntentChange (handleIntentChange initialFilterState Commercial)
              Informational in
  getIntentFilterSummary st = Some "I, C" /\
  (forall i, isSelected (selectedIntents st) i = true <-> hasChar (intentCode i) "I, C").
Proof.
  intros st. split; [reflexivity |].
  apply (proj2 (getIntentFilterSummary_shows_filter_letters st) "I, C").
  reflexivity.
Defined.

(** The Clear button of the intent panel switches the intent filter off
    and never hides a record. *)
Theorem clearIntents_only_widens (st : FilterState) :
  isIntentFilterActive (clearIntents st) = false /\
  getIntentFilterSummary (clearIntents st) = None /\
  (forall kw, intentMatch (clearIntents st) kw = true) /\
  (forall kw, evaluate st kw = true -> evaluate (clearIntents st) kw = true).
Proof.
  repeat split; try reflexivity.
  intros kw H. apply evaluate_true_iff in H. destruct H as [Hr [_ [Hin Hex]]].
  apply evaluate_true_iff. repeat split; auto.
Qed.

Lemma clearIntents_witness :
  let st := handleIntentChange (withMin Difficulty "20" initialFilterState) Navigational in
  let kw := mkKeyword "seo login" "N" "2,500" 40 (5 # 4) 900 "seo" in
  evaluate st kw = true /\ evaluate (clearIntents st) kw = true.
Proof.
  intros st kw. split; [reflexivity |].
  apply (proj2 (proj2 (proj2 (clearIntents_only_widens st))) kw).
  reflexivity.
Defined.

(** ** Editing the text filters *)

Lemma truthy_false (s : string) : truthy s = false <-> s = EmptyString.
Proof. destruct s; simpl; split; congruence. Qed.

Lemma filterIndex_removes {A : Type} (l : list A) (n index : nat) :
  filterIndex (fun i => negb (i =? n + index)%nat) n l
  = (firstn index l ++ skipn (S index) l)%list.
Proof.
  revert n index; induction l as [|x l IH]; intros n index.
  - now destruct index.
  - cbn [filterIndex]. destruct index as [|index].
    + rewrite Nat.add_0_r, Nat.eqb_refl. cbn [negb firstn skipn app].
      clear IH. generalize (S n) (Nat.lt_succ_diag_r n).
      induction l as [|y l IHl]; intros m Hm; [reflexivity |].
      cbn [filterIndex]. replace (m =? n)%nat with false
        by (symmetry; apply Nat.eqb_neq; lia).
      cbn [negb]. f_equal. apply IHl. lia.
    + replace (n =? n + S index)%nat with false
        by (symmetry; apply Nat.eqb_neq; lia).
      cbn [negb firstn skipn app]. f_equal.
      replace (n + S index)%nat with (S n + index)%nat by lia. apply IH.
Qed.

Lemma filterIndex_removes_at {A : Type} (l : list A) (index : nat) :
  filterIndex (fun i => negb (i =? index)%nat) 0 l
  = (firstn index l ++ skipn (S index) l)%list.
Proof. exact (filterIndex_removes l 0 index). Qed.

Lemma removeKeyword_keywords (f : KeywordFilter) (index : nat) :
  keywords (removeKeyword f index)
  = (firstn index (keywords f) ++ skipn (S index) (keywords f))%list.
Proof.
  unfold removeKeyword. cbn [keywords]. apply filterIndex_removes_at.
Qed.

(** The remove button of a term deletes the term at its position and
    nothing else; a position past the end changes nothing; removing the
    term that was just added gives back the filter. *)
Theorem removeKeyword_deletes_one_term (f : KeywordFilter) (index : nat) :
  type (removeKeyword f index) = type f /\
  keywords (removeKeyword f index)
  = (firstn index (keywords f) ++ skipn (S index) (keywords f))%list /\
  ((index < List.length (keywords f))%nat ->
   S (List.length (keywords (removeKeyword f index))) = List.length (keywords f)) /\
  ((List.length (keywords f) <= index)%nat -> removeKeyword f index = f) /\
  (forall input, trim input <> EmptyString ->
     removeKeyword (fst (addKeyword f input)) (List.length (keywords f)) = f).
Proof.
  split; [reflexivity |]. split; [apply removeKeyword_keywords |].
  split; [| split].
  - intros H. rewrite removeKeyword_keywords, length_app, length_firstn, length_skipn.
    lia.
  - intros H. destruct f as [t ks]. unfold removeKeyword. cbn [type keywords] in *.
    f_equal. rewrite filterIndex_removes_at.
    rewrite firstn_all2, skipn_all2 by lia. apply app_nil_r.
  - intros input Hne. unfold addKeyword.
    destruct (trim input) as [|c r] eqn:E; [congruence |].
    cbn [truthy fst]. destruct f as [t ks]. unfold removeKeyword.
    cbn [type keywords]. f_equal.
    rewrite filterIndex_removes_at.
    rewrite firstn_app, firstn_all, Nat.sub_diag.
    rewrite skipn_all2 by (rewrite length_app; simpl; lia).
    cbn [firstn]. now rewrite !app_nil_r.
Qed.

Lemma removeKeyword_witness :
  let f := mkKeywordFilter any ["seo"; "tool"; "free"] in
  (1 < List.length (keywords f))%nat /\
  S (List.length (keywords (removeKeyword f 1))) = List.length (keywords f) /\
  keywords (removeKeyword f 1) = ["seo"; "free"].
Proof.
  intros f. split; [simpl; lia |]. split; [| reflexivity].
  apply (proj1 (proj2 (proj2 (removeKeyword_deletes_one_term f 1)))).
  simpl; lia.
Defined.

Lemma trim_storedTerm (s : string) : trim s <> EmptyString -> storedTerm (trim s).
Proof.
  intros H. split; [exact H | apply trim_idempotent].
Qed.

Lemma Forall_firstn_skipn {A : Type} (P : A -> Prop) (l : list A) (n m : nat) :
  Forall P l -> Forall P (firstn n l ++ skipn m l)%list.
Proof.
  intros H. apply Forall_app. split.
  - rewrite Forall_forall in *. intros x Hx. apply H.
    rewrite <- (firstn_skipn n l). apply in_or_app. now left.
  - rewrite Forall_forall in *. intros x Hx. apply H.
    rewrite <- (firstn_skipn m l). apply in_or_app. now right.
Qed.

Lemma applyTermAction_stored (f : KeywordFilter) (a : TermAction) :
  Forall storedTerm (keywords f) -> Forall storedTerm (keywords (applyTermAction f a)).
Proof.
  intros H. destruct a as [input | index | t]; cbn [applyTermAction].
  - unfold addKeyword. destruct (truthy (trim input)) eqn:E; [| exact H].
    cbn [fst keywords]. apply Forall_app. split; [exact H |].
    constructor; [| constructor]. apply trim_storedTerm.
    intros Hn. rewrite Hn in E. discriminate.
  - rewrite removeKeyword_keywords. now apply Forall_firstn_skipn.
  - exact H.
Qed.

(** Whatever the user does with a text filter (add a term, remove a term,
    switch between All and Any), starting from the empty filter, every term
    of the filter is a non-empty string without white space at its ends;
    an input of white space only adds nothing and is left in the box. *)
Theorem stored_terms_are_trimmed :
  (forall actions,
     Forall storedTerm
       (keywords (fold_left applyTermAction actions (mkKeywordFilter all [])))) /\
  (forall f input, trim input = EmptyString -> addKeyword f input = (f, input)) /\
  (forall f input, trim input <> EmptyString ->
     addKeyword f input
     = (mkKeywordFilter (type f) (keywords f ++ [trim input]), EmptyString)).
Proof.
  split; [| split].
  - intros actions.
    assert (H : forall f, Forall storedTerm (keywords f) ->
              Forall storedTerm (keywords (fold_left applyTermAction actions f))).
    { induction actions as [|a actions IH]; intros f Hf; [exact Hf |].
      cbn [fold_left]. apply IH. now apply applyTermAction_stored. }
    apply H. constructor.
  - intros f input H. unfold addKeyword. now rewrite H.
  - intros f input H. unfold addKeyword.
    destruct (trim input); [congruence | reflexivity].
Qed.

Lemma stored_terms_witness :
  trim "  Free Trial " <> EmptyString /\
  addKeyword (mkKeywordFilter any ["seo"]) "  Free Trial "
  = (mkKeywordFilter any ["seo"; "Free Trial"], EmptyString).
Proof.
  split; [discriminate |].
  apply (proj2 (proj2 stored_terms_are_trimmed) (mkKeywordFilter any ["seo"])).
  discriminate.
Defined.

Lemma toLowerCase_empty (t : string) : toLowerCase t = EmptyString <-> t = EmptyString.
Proof. destruct t; simpl; split; congruence. Qed.

Lemma includes_in_empty (t : string) :
  includes EmptyString t = true <-> t = EmptyString.
Proof.
  destruct t; simpl; split; congruence.
Qed.

Lemma containsTerm_empty_keyword (kw : Keyword) (t : string) :
  keyword kw = EmptyString -> t <> EmptyString -> containsTerm kw t = false.
Proof.
  intros Hk Ht. unfold containsTerm. rewrite Hk. cbn [toLowerCase].
  destruct (includes EmptyString (toLowerCase t)) eqn:E; [| reflexivity].
  apply includes_in_empty in E. apply (proj1 (toLowerCase_empty t)) in E.
  contradiction.
Qed.

(** A record with an empty keyword matches no stored term: an include
    filter with terms hides it, in both modes, and an exclude filter never
    hides it. *)
Theorem empty_keyword_matches_no_term (st : FilterState) (kw : Keyword) :
  keyword kw = EmptyString ->
  (keywords (includeFilter st) <> [] ->
   Forall storedTerm (keywords (includeFilter st)) ->
   includeMatch st kw = false /\ evaluate st kw = false) /\
  (Forall storedTerm (keywords (excludeFilter st)) -> excludeMatch st kw = true).
Proof.
  intros Hk.
  assert (Hall : forall ts, Forall storedTerm ts ->
            existsb (containsTerm kw) ts = false /\
            (ts <> [] -> forallb (containsTerm kw) ts = false)).
  { induction 1 as [|t ts [Ht _] _ [IH1 IH2]]; [split; [reflexivity | congruence] |].
    cbn [existsb forallb].
    rewrite (containsTerm_empty_keyword kw t Hk Ht). now rewrite IH1. }
  split.
  - intros Hne Hst. destruct (Hall _ Hst) as [H1 H2]. specialize (H2 Hne).
    assert (Hi : includeMatch st kw = false).
    { unfold includeMatch. cbv zeta.
      destruct (keywords (includeFilter st)) eqn:E; [congruence |].
      cbn [List.length Nat.eqb orb]. now destruct (type (includeFilter st)). }
    split; [exact Hi |].
    rewrite evaluate_dimensions, Hi. now rewrite andb_false_r.
  - intros Hst. destruct (Hall _ Hst) as [H1 H2].
    unfold excludeMatch. cbv zeta.
    destruct (keywords (excludeFilter st)) eqn:E; [reflexivity |].
    cbn [List.length Nat.eqb orb].
    destruct (type (excludeFilter st)); [rewrite H2; [reflexivity | discriminate] |].
    now rewrite H1.
Qed.

Lemma empty_keyword_witness :
  let st := fst (handleAddIncludeKeyword initialFilterState " seo ") in
  keyword (keywordOf "") = EmptyString /\
  keywords (includeFilter st) <> [] /\
  Forall storedTerm (keywords (includeFilter st)) /\
  evaluate st (keywordOf "") = false.
Proof.
  intros st.
  assert (Hs : Forall storedTerm (keywords (includeFilter st))).
  { repeat constructor; discriminate. }
  split; [reflexivity |]. split; [discriminate |]. split; [exact Hs |].
  apply (proj1 (empty_keyword_matches_no_term st (keywordOf "") eq_refl));
    [discriminate | exact Hs].
Defined.

(** ** How the text filters react to their terms *)

Lemma evaluate_withInclude (st : FilterState) (f : KeywordFilter) (kw : Keyword) :
  evaluate (withInclude f st) kw = true <->
  (forall d, rangePass d st kw = true) /\ intentMatch st kw = true /\
  includeMatch (withInclude f st) kw = true /\ excludeMatch st kw = true.
Proof.
  rewrite evaluate_true_iff. split; intros [Hr H]; (split; [| exact H]);
    intros d; specialize (Hr d); destruct d; exact Hr.
Qed.

Lemma evaluate_withExclude (st : FilterState) (f : KeywordFilter) (kw : Keyword) :
  evaluate (withExclude f st) kw = true <->
  (forall d, rangePass d st kw = true) /\ intentMatch st kw = true /\
  includeMatch st kw = true /\ excludeMatch (withExclude f st) kw = true.
Proof.
  rewrite evaluate_true_iff. split; intros [Hr H]; (split; [| exact H]);
    intros d; specialize (Hr d); destruct d; exact Hr.
Qed.

Lemma length_app_one_nonzero {A : Type} (l : list A) (x : A) :
  (List.length (l ++ [x]) =? 0)%nat = false.
Proof.
  rewrite length_app. simpl. apply Nat.eqb_neq. lia.
Qed.

(** Adding an include term hides records in mode All and reveals records
    in mode Any: with All, every record visible after the addition was
    visible before; with Any and at least one term already present, every
    record visible before stays visible. *)
Theorem include_term_added (st : FilterState) (input : string) (kw : Keyword) :
  let st' := fst (handleAddIncludeKeyword st input) in
  (type (includeFilter st) = all ->
   evaluate st' kw = true -> evaluate st kw = true) /\
  (type (includeFilter st) = any -> keywords (includeFilter st) <> [] ->
   evaluate st kw = true -> evaluate st' kw = true).
Proof.
  unfold handleAddIncludeKeyword, addKeyword.
  destruct (truthy (trim input)); cbn [fst]; cbv zeta.
  - split.
    + intros Hall H. apply evaluate_withInclude in H.
      destruct H as [Hr [Hi [Hin Hex]]]. apply evaluate_true_iff.
      repeat split; auto.
      unfold includeMatch in *. cbv zeta in *. cbn [includeFilter withInclude type keywords] in Hin.
      rewrite length_app_one_nonzero, Hall, forallb_app in Hin. cbn [orb] in Hin.
      apply andb_true_iff in Hin. rewrite Hall, (proj1 Hin). apply orb_true_r.
    + intros Hany Hne H. apply evaluate_true_iff in H.
      destruct H as [Hr [Hi [Hin Hex]]]. apply evaluate_withInclude.
      repeat split; auto.
      unfold includeMatch in *. cbv zeta in *. cbn [includeFilter withInclude type keywords].
      rewrite Hany in *. rewrite existsb_app.
      destruct (keywords (includeFilter st)) eqn:E; [congruence |].
      cbn [List.length Nat.eqb orb] in Hin. rewrite Hin. apply orb_true_r.
  - destruct st; split; auto.
Qed.

Lemma include_term_added_witness :
  let st := fst (handleAddIncludeKeyword initialFilterState "seo") in
  let kw := keywordOf "Best SEO tool" in
  type (includeFilter st) = all /\
  (evaluate (fst (handleAddIncludeKeyword st " Tool ")) kw = true ->
   evaluate st kw = true).
Proof.
  intros st kw. split; [reflexivity |].
  apply (proj1 (include_term_added st " Tool " kw)). reflexivity.
Defined.

(** Adding an exclude term hides records in mode Any and reveals records
    in mode All: with Any, every record visible after the addition was
    visible before; with All and at least one term already present, every
    record visible before stays visible, since a record is then hidden only
    when it holds every term. *)
Theorem exclude_term_added (st : FilterState) (input : string) (kw : Keyword) :
  let st' := fst (handleAddExcludeKeyword st input) in
  (type (excludeFilter st) = any ->
   evaluate st' kw = true -> evaluate st kw = true) /\
  (type (excludeFilter st) = all -> keywords (excludeFilter st) <> [] ->
   evaluate st kw = true -> evaluate st' kw = true).
Proof.
  unfold handleAddExcludeKeyword, addKeyword.
  destruct (truthy (trim input)); cbn [fst]; cbv zeta.
  - split.
    + intros Hany H. apply evaluate_withExclude in H.
      destruct H as [Hr [Hi [Hin Hex]]]. apply evaluate_true_iff.
      repeat split; auto.
      unfold excludeMatch in *. cbv zeta in *. cbn [excludeFilter withExclude type keywords] in Hex.
      rewrite length_app_one_nonzero, Hany, existsb_app in Hex. cbn [orb] in Hex.
      apply negb_true_iff, orb_false_iff in Hex.
      rewrite Hany, (proj1 Hex). apply orb_true_r.
    + intros Hall Hne H. apply evaluate_true_iff in H.
      destruct H as [Hr [Hi [Hin Hex]]]. apply evaluate_withExclude.
      repeat split; auto.
      unfold excludeMatch in *. cbv zeta in *. cbn [excludeFilter withExclude type keywords].
      rewrite Hall in *. rewrite forallb_app.
      destruct (keywords (excludeFilter st)) eqn:E; [congruence |].
      cbn [List.length Nat.eqb orb] in Hex. apply negb_true_iff in Hex.
      rewrite Hex. apply orb_true_r.
  - destruct st; split; auto.
Qed.

Lemma exclude_term_added_witness :
  let st := fst (handleAddExcludeKeyword initialFilterState "free") in
  let kw := keywordOf "seo tool" in
  type (excludeFilter st) = all /\
  keywords (excludeFilter st) <> [] /\
  (evaluate st kw = true ->
   evaluate (fst (handleAddExcludeKeyword st "trial")) kw = true).
Proof.
  intros st kw. split; [reflexivity |]. split; [discriminate |].
  apply (proj2 (exclude_term_added st "trial" kw)); [reflexivity | discriminate].
Defined.

Lemma forallb_same_elements {A : Type} (p : A -> bool) (l l' : list A) :
  (forall x, In x l <-> In x l') -> forallb p l = forallb p l'.
Proof.
  intros H. apply eq_true_iff_eq. rewrite !forallb_forall.
  split; intros Hp x Hx; apply Hp, H, Hx.
Qed.

Lemma existsb_same_elements {A : Type} (p : A -> bool) (l l' : list A) :
  (forall x, In x l <-> In x l') -> existsb p l = existsb p l'.
Proof.
  intros H. apply eq_true_iff_eq. rewrite !existsb_exists.
  split; intros [x [Hx Hp]]; exists x; split; auto; apply H, Hx.
Qed.

Lemma same_elements_nil {A : Type} (l l' : list A) :
  (forall x, In x l <-> In x l') ->
  (List.length l =? 0)%nat = (List.length l' =? 0)%nat.
Proof.
  intros H. destruct l as [|x l], l' as [|y l']; try reflexivity.
  - destruct (proj2 (H y)). now left.
  - destruct (proj1 (H x)). now left.
Qed.

(** A text filter depends on its terms as a set: entering a term twice,
    or entering the terms in another order, does not change which records
    are visible. *)
Theorem terms_act_as_a_set (st : FilterState) (ks : list string) (kw : Keyword) :
  ((forall t, In t ks <-> In t (keywords (includeFilter st))) ->
   evaluate (withInclude (mkKeywordFilter (type (includeFilter st)) ks) st) kw
   = evaluate st kw) /\
  ((forall t, In t ks <-> In t (keywords (excludeFilter st))) ->
   evaluate (withExclude (mkKeywordFilter (type (excludeFilter st)) ks) st) kw
   = evaluate st kw).
Proof.
  split; intros H; apply eq_true_iff_eq.
  - rewrite evaluate_withInclude, evaluate_true_iff.
    assert (E : includeMatch
                  (withInclude (mkKeywordFilter (type (includeFilter st)) ks) st) kw
                = includeMatch st kw).
    { unfold includeMatch. cbv zeta. cbn [includeFilter withInclude type keywords].
      rewrite (same_elements_nil _ _ H), (forallb_same_elements _ _ _ H),
        (existsb_same_elements _ _ _ H). reflexivity. }
    rewrite E. reflexivity.
  - rewrite evaluate_withExclude, evaluate_true_iff.
    assert (E : excludeMatch
                  (withExclude (mkKeywordFilter (type (excludeFilter st)) ks) st) kw
                = excludeMatch st kw).
    { unfold excludeMatch. cbv zeta. cbn [excludeFilter withExclude type keywords].
      rewrite (same_elements_nil _ _ H), (forallb_same_elements _ _ _ H),
        (existsb_same_elements _ _ _ H). reflexivity. }
    rewrite E. reflexivity.
Qed.

Lemma terms_act_as_a_set_witness :
  let st := withInclude (mkKeywordFilter all ["seo"; "tool"]) initialFilterState in
  let ks := ["tool"; "seo"; "tool"] in
  (forall t, In t ks <-> In t (keywords (includeFilter st))) /\
  evaluate (withInclude (mkKeywordFilter (type (includeFilter st)) ks) st)
    (keywordOf "best seo tool")
  = evaluate st (keywordOf "best seo tool").
Proof.
  intros st ks.
  assert (H : forall t, In t ks <-> In t (keywords (includeFilter st))).
  { intros t. simpl. tauto. }
  split; [exact H |].
  exact (proj1 (terms_act_as_a_set st ks (keywordOf "best seo tool")) H).
Defined.

Lemma containsTerm_case (kw kw' : Keyword) (t t' : string) :
  sameIgnoringCase (keyword kw) (keyword kw') -> sameIgnoringCase t t' ->
  containsTerm kw t = containsTerm kw' t'.
Proof.
  intros Hk Ht. apply sameIgnoringCase_iff in Hk, Ht.
  unfold containsTerm. now rewrite Hk, Ht.
Qed.

Lemma terms_case (kw kw' : Keyword) (ts ts' : list string) :
  sameIgnoringCase (keyword kw) (keyword kw') ->
  Forall2 sameIgnoringCase ts ts' ->
  forallb (containsTerm kw) ts = forallb (containsTerm kw') ts' /\
  existsb (containsTerm kw) ts = existsb (containsTerm kw') ts' /\
  List.length ts = List.length ts'.
Proof.
  intros Hk. induction 1 as [|t t' ts ts' Ht _ [IH1 [IH2 IH3]]]; [now repeat split |].
  cbn [forallb existsb List.length].
  now rewrite (containsTerm_case kw kw' t t' Hk Ht), IH1, IH2, IH3.
Qed.

(** The text filters ignore the case of the letters, in the terms and in
    the keyword: writing a term or a keyword with other capitals does not
    change the result of the include and of the exclude dimension. *)
Theorem text_filters_ignore_case
    (st : FilterState) (fi fe : KeywordFilter) (kw kw' : Keyword) :
  sameIgnoringCase (keyword kw) (keyword kw') ->
  type fi = type (includeFilter st) ->
  Forall2 sameIgnoringCase (keywords (includeFilter st)) (keywords fi) ->
  type fe = type (excludeFilter st) ->
  Forall2 sameIgnoringCase (keywords (excludeFilter st)) (keywords fe) ->
  includeMatch (withInclude fi st) kw' = includeMatch st kw /\
  excludeMatch (withExclude fe st) kw' = excludeMatch st kw.
Proof.
  intros Hk Hti Hi Hte He.
  destruct (terms_case kw kw' _ _ Hk Hi) as [Hi1 [Hi2 Hi3]].
  destruct (terms_case kw kw' _ _ Hk He) as [He1 [He2 He3]].
  unfold includeMatch, excludeMatch. cbv zeta.
  cbn [includeFilter excludeFilter withInclude withExclude].
  now rewrite Hti, Hte, Hi1, Hi2, Hi3, He1, He2, He3.
Qed.

Lemma sameIgnoringCase_refl (s : string) : sameIgnoringCase s s.
Proof. now apply sameIgnoringCase_iff. Qed.

Lemma text_filters_ignore_case_witness :
  let st := withInclude (mkKeywordFilter all ["seo"; "tool"]) initialFilterState in
  let fi := mkKeywordFilter all ["SEO"; "Tool"] in
  let fe := mkKeywordFilter all [] in
  sameIgnoringCase (keyword (keywordOf "best seo tool")) (keyword (keywordOf "Best SEO Tool")) /\
  includeMatch (withInclude fi st) (keywordOf "Best SEO Tool")
  = includeMatch st (keywordOf "best seo tool").
Proof.
  intros st fi fe.
  assert (Hk : sameIgnoringCase (keyword (keywordOf "best seo tool"))
                                (keyword (keywordOf "Best SEO Tool")))
    by (apply sameIgnoringCase_iff; reflexivity).
  split; [exact Hk |].
  apply (text_filters_ignore_case st fi fe _ _ Hk); try reflexivity.
  - repeat constructor; apply sameIgnoringCase_iff; reflexivity.
  - constructor.
Defined.

(** With at least one term, the exclude dimension is the negation of the
    include dimension of the same filter; so when the include and the
    exclude filter hold the same terms and mode, no record is visible. *)
Theorem same_include_and_exclude_hide_everything (st : FilterState) (kw : Keyword) :
  includeFilter st = excludeFilter st ->
  keywords (includeFilter st) <> [] ->
  excludeMatch st kw = negb (includeMatch st kw) /\ evaluate st kw = false.
Proof.
  intros Heq Hne.
  assert (H : excludeMatch st kw = negb (includeMatch st kw)).
  { unfold excludeMatch, includeMatch. cbv zeta. rewrite <- Heq.
    destruct (keywords (includeFilter st)); [congruence |].
    cbn [List.length Nat.eqb orb]. now destruct (type (includeFilter st)). }
  split; [exact H |].
  rewrite evaluate_dimensions, H.
  destruct (includeMatch st kw); cbn [negb]; now rewrite ?andb_false_r.
Qed.

Lemma same_include_and_exclude_witness :
  let f := mkKeywordFilter any ["seo"] in
  let st := withExclude f (withInclude f initialFilterState) in
  includeFilter st = excludeFilter st /\
  keywords (includeFilter st) <> [] /\
  evaluate st (keywordOf "seo tool") = false.
Proof.
  intros f st. split; [reflexivity |]. split; [discriminate |].
  apply (same_include_and_exclude_hide_everything st (keywordOf "seo tool"));
    [reflexivity | discriminate].
Defined.

(** With a single term the modes All and Any of a text filter agree. *)
Theorem single_term_modes_agree (st : FilterState) (t : string) (kw : Keyword) :
  (keywords (includeFilter st) = [t] ->
   evaluate (withInclude (setFilterType (includeFilter st) all) st) kw
   = evaluate (withInclude (setFilterType (includeFilter st) any) st) kw) /\
  (keywords (excludeFilter st) = [t] ->
   evaluate (withExclude (setFilterType (excludeFilter st) all) st) kw
   = evaluate (withExclude (setFilterType (excludeFilter st) any) st) kw).
Proof.
  split; intros H; apply eq_true_iff_eq.
  - rewrite !evaluate_withInclude.
    unfold includeMatch, setFilterType. cbv zeta.
    cbn [includeFilter withInclude type keywords]. rewrite H.
    cbn [forallb existsb]. now rewrite andb_true_r, orb_false_r.
  - rewrite !evaluate_withExclude.
    unfold excludeMatch, setFilterType. cbv zeta.
    cbn [excludeFilter withExclude type keywords]. rewrite H.
    cbn [forallb existsb]. now rewrite andb_true_r, orb_false_r.
Qed.

Lemma single_term_witness :
  let st := fst (handleAddExcludeKeyword initialFilterState "free") in
  keywords (excludeFilter st) = ["free"] /\
  evaluate (withExclude (setFilterType (excludeFilter st) all) st) (keywordOf "free seo")
  = evaluate (withExclude (setFilterType (excludeFilter st) any) st) (keywordOf "free seo").
Proof.
  intros st. split; [reflexivity |].
  now apply (proj2 (single_term_modes_agree st "free" (keywordOf "free seo"))).
Defined.

(** ** Ingestion *)

Lemma numberOrZero_not_NaN (x : number) : numberOrZero x <> NaN.
Proof.
  destruct x as [| |q|]; simpl; try discriminate.
  destruct (Qeq_bool q 0); discriminate.
Qed.

Lemma ofParsedInt_safe (x : option Z) (v : Z) :
  x = Some v -> Z.abs v < 2 ^ 53 ->
  numberOrZero (ofParsedInt x) = Finite (inject_Z v).
Proof.
  intros -> Hv. unfold ofParsedInt. rewrite (roundToDouble_safe_integer v Hv).
  unfold numberOrZero. destruct (Qeq_bool (inject_Z v) 0) eqn:E; [| reflexivity].
  apply Qeq_bool_iff in E. unfold Qeq, inject_Z in E. simpl in E.
  assert (Hz : v = 0) by lia. subst v. reflexivity.
Qed.

(** [handleFileUpload] never stores NaN: whatever the cells of a row hold,
    and however many cells the row has, the difficulty, the cost per click
    and the traffic potential of the record built from it are numbers.  A
    numeric cell that is missing or does not start with a number gives 0, a
    missing text cell gives the empty string, an integer cell below 2^53
    gives that integer, and a cell too large for a double gives an
    infinity; the first row of the file is not turned into a record. *)
Theorem ingestion_defaults :
  (forall row, rowKd (parseRow row) <> NaN /\ rowCpc (parseRow row) <> NaN /\
               rowTrafficPotential (parseRow row) <> NaN) /\
  (forall row,
     (parseInt (argString (cell row 3)) = None -> rowKd (parseRow row) = Finite 0) /\
     (parseFloat (argString (cell row 4)) = NaN -> rowCpc (parseRow row) = Finite 0) /\
     (parseInt (argString (cell row 5)) = None ->
      rowTrafficPotential (parseRow row) = Finite 0)) /\
  (forall row v, Z.abs v < 2 ^ 53 ->
     (parseInt (argString (cell row 3)) = Some v ->
      rowKd (parseRow row) = Finite (inject_Z v)) /\
     (parseInt (argString (cell row 5)) = Some v ->
      rowTrafficPotential (parseRow row) = Finite (inject_Z v))) /\
  (forall row, (List.length row <= 3)%nat ->
     parseRow row = mkParsedRow (orEmpty (cell row 0)) (orEmpty (cell row 1))
                      (orEmpty (cell row 2)) (Finite 0) (Finite 0) (Finite 0)
                      EmptyString) /\
  (forall data, List.length (parsedData data) = (List.length data - 1)%nat) /\
  parseRow ["seo tool"; "I,C"; "1,200"; "35"; "1.25"; "900"; "seo"]
  = mkParsedRow "seo tool" "I,C" "1,200" (Finite 35) (Finite (5 # 4)) (Finite 900) "seo" /\
  parseRow ["seo tool"; "I,C"; "1,200"; "n/a"; ""; "12,5"]
  = mkParsedRow "seo tool" "I,C" "1,200" (Finite 0) (Finite 0) (Finite 12) "" /\
  rowCpc (parseRow ["seo"; "I"; "10"; "5"; "1e400"]) = Infinity /\
  rowCpc (parseRow ["seo"; "I"; "10"; "5"; "-Infinity"]) = NegInfinity /\
  parsedData [["Keyword"; "Intent"; "Volume"]; [""]]
  = [mkParsedRow "" "" "" (Finite 0) (Finite 0) (Finite 0) ""].
Proof.
  split; [intros row; repeat split; apply numberOrZero_not_NaN |].
  split.
  { intros row. unfold parseRow. cbn [rowKd rowCpc rowTrafficPotential].
    repeat split; now intros ->. }
  split.
  { intros row v Hv. unfold parseRow. cbn [rowKd rowTrafficPotential].
    split; intros H; now apply ofParsedInt_safe. }
  split.
  { intros row Hlen. unfold parseRow, cell.
    assert (H3 : nth_error row 3 = None) by (apply nth_error_None; lia).
    assert (H4 : nth_error row 4 = None) by (apply nth_error_None; lia).
    assert (H5 : nth_error row 5 = None) by (apply nth_error_None; lia).
    assert (H6 : nth_error row 6 = None) by (apply nth_error_None; lia).
    rewrite H3, H4, H5, H6. reflexivity. }
  split.
  { intros data. unfold parsedData. rewrite length_map.
    destruct data; simpl; lia. }
  repeat split; vm_compute; reflexivity.
Qed.

Lemma ingestion_defaults_witness :
  let row := ["seo tool"; "I,C"; "1,200"; "n/a"; ""; "12,5"] in
  parseInt (argString (cell row 3)) = None /\
  rowKd (parseRow row) = Finite 0 /\
  Z.abs 12 < 2 ^ 53 /\
  parseInt (argString (cell row 5)) = Some 12 /\
  rowTrafficPotential (parseRow row) = Finite (inject_Z 12).
Proof.
  intros row.
  assert (Hv : Z.abs 12 < 2 ^ 53) by reflexivity.
  split; [reflexivity |].
  split; [apply (proj1 (proj1 (proj2 ingestion_defaults) row)); reflexivity |].
  split; [exact Hv |]. split; [reflexivity |].
  apply (proj2 (proj1 (proj2 (proj2 ingestion_defaults)) row 12 Hv)).
  reflexivity.
Defined.
